(** * Postr: the permission-gated signing gateway

    A shallow embedding of the request validator
    ([src/shared/nip07-signer.js]), the permission store
    ([src/shared/storage.js]), the background mediator (the background
    script, with its pending-request table and dialog-window tracker) and
    the approval dialog ([src/popup/sign-dialog.js]).

    Conventions of the embedding:
    - a handler of the background script is one atomic transition of the
      gateway state (the single-threaded, run-to-completion model of the
      design); what it does to the outside world is returned as an ordered
      list of effects;
    - [Date.now()] is an input of every transition (read once per
      dispatch), so that the clock stays under the control of the
      environment;
    - chrome.storage.local is available and its callbacks report no error;
    - the cryptographic library ([NostrTools]) is a record of functions
      that may throw.

    The modules [Js], [Storage], [Nip07Signer], [Background] and
    [SignDialog] follow the source files; [Spec] holds the words the
    properties are stated in and the sample data; the properties come
    last, by component. *)

From Stdlib Require Import QArith Ascii.
From stdpp Require Import gmap strings list fin_maps pretty.
Close Scope Q_scope.
Open Scope Z_scope.
Set Warnings "-register-all".

(** ** JavaScript values *)

Module Js.

(** A JavaScript number: a finite value (every finite double is a
    rational), NaN or an infinity. *)
Inductive number :=
| Finite (q : Q)
| NaN
| PosInf
| NegInf.

Definition of_Z (z : Z) : number := Finite (inject_Z z).

(** [a < b] on numbers; any comparison with NaN is false. *)
Definition lt (a b : number) : bool :=
  match a, b with
  | NaN, _ | _, NaN => false
  | Finite x, Finite y => negb (Qle_bool y x)
  | Finite _, PosInf => true
  | Finite _, NegInf => false
  | NegInf, NegInf => false
  | NegInf, _ => true
  | PosInf, _ => false
  end.

Definition is_integer (n : number) : bool :=
  match n with
  | Finite q => Qnum q `mod` Z.pos (Qden q) =? 0
  | _ => false
  end.

Inductive value :=
| Undefined
| Null
| Bool (b : bool)
| Num (n : number)
| Str (s : string)
| Arr (items : list value)
| Obj (fields : list (string * value)).

Definition typeof (v : value) : string :=
  match v with
  | Undefined => "undefined"
  | Null => "object"
  | Bool _ => "boolean"
  | Num _ => "number"
  | Str _ => "string"
  | Arr _ => "object"
  | Obj _ => "object"
  end.

(** ToBoolean: [undefined], [null], [false], [0], [NaN] and the empty
    string are falsy. *)
Definition truthy (v : value) : bool :=
  match v with
  | Undefined | Null => false
  | Bool b => b
  | Num (Finite q) => negb (Qeq_bool q 0)
  | Num NaN => false
  | Num _ => true
  | Str s => negb (String.eqb s EmptyString)
  | Arr _ | Obj _ => true
  end.

Definition isArray (v : value) : bool :=
  match v with Arr _ => true | _ => false end.

Fixpoint assoc (k : string) (fields : list (string * value)) : value :=
  match fields with
  | [] => Undefined
  | (k', v) :: rest => if String.eqb k k' then v else assoc k rest
  end.

(** [v.k] for a [v] that is neither [null] nor [undefined]. Only the
    names [kind], [created_at], [tags], [content] and [id] are read by the
    code below; no primitive or array has a built-in property of one of
    these names. *)
Definition field (v : value) (k : string) : value :=
  match v with
  | Obj fields => assoc k fields
  | _ => Undefined
  end.

(** [v === "s"] *)
Definition is_str (v : value) (s : string) : bool :=
  match v with
  | Str s' => String.eqb s' s
  | _ => false
  end.

(** Array.prototype.join on an array of strings. *)
Fixpoint join (sep : string) (l : list string) : string :=
  match l with
  | [] => EmptyString
  | [s] => s
  | s :: rest => s +:+ sep +:+ join sep rest
  end.

(** Computations that may throw; the payload of [Throw] is
    [error.message]. *)
Inductive result (A : Type) :=
| Ok (a : A)
| Throw (message : string).
Arguments Ok {A} a.
Arguments Throw {A} message.

Global Instance result_bind : MBind result := λ A B k r,
  match r with
  | Ok a => k a
  | Throw m => Throw m
  end.

(** [v.k] in general: reading a property of [null] or [undefined] throws
    a TypeError. *)
Definition prop (v : value) (k : string) : result value :=
  match v with
  | Undefined | Null => Throw "TypeError"
  | _ => Ok (field v k)
  end.

End Js.

(** ** Storage: chrome.storage.local and the permission store *)

Module Storage.
Import Js.

(** An entry of [postr_site_permissions]. [type] is whatever was stored
    (legacy entries have none: [Undefined]); [expiresAt] is [null] ([None])
    or a number. *)
Record Permission := {
  domain : string;
  type : value;
  duration : string;
  expiresAt : option Z;
  addedAt : Z
}.

Record HistoryEntry := {
  history_domain : string;
  eventKind : value;
  eventId : value;
  timestamp : Z
}.

Record NotificationSettings := {
  showAutoSignNotifications : bool;
  enableSigningHistory : bool
}.

(** What the gateway stores under [sign_request_<requestId>]. *)
Record SignRequest := {
  request_event : value;
  request_domain : string;
  request_origin : option string
}.

(** The keys of chrome.storage.local the gateway reads and writes;
    [sign_requests] holds the entries whose key starts with
    [sign_request_], under their full key. *)
Record local := {
  postr_nsec : option string;
  postr_site_permissions : list Permission;
  postr_signing_history : list HistoryEntry;
  postr_notification_settings : option NotificationSettings;
  sign_requests : gmap string SignRequest
}.

Definition with_permissions (perms : list Permission) (s : local) : local :=
  {| postr_nsec := postr_nsec s;
     postr_site_permissions := perms;
     postr_signing_history := postr_signing_history s;
     postr_notification_settings := postr_notification_settings s;
     sign_requests := sign_requests s |}.

Definition with_history (h : list HistoryEntry) (s : local) : local :=
  {| postr_nsec := postr_nsec s;
     postr_site_permissions := postr_site_permissions s;
     postr_signing_history := h;
     postr_notification_settings := postr_notification_settings s;
     sign_requests := sign_requests s |}.

Definition with_sign_requests (m : gmap string SignRequest) (s : local)
  : local :=
  {| postr_nsec := postr_nsec s;
     postr_site_permissions := postr_site_permissions s;
     postr_signing_history := postr_signing_history s;
     postr_notification_settings := postr_notification_settings s;
     sign_requests := m |}.

Definition sign_request_key (requestId : string) : string :=
  "sign_request_" +:+ requestId.

(** [chrome.storage.local.set({[key]: v})] and
    [chrome.storage.local.remove(key)] on a [sign_request_] key. *)
Definition set_sign_request (requestId : string) (v : SignRequest)
    (s : local) : local :=
  with_sign_requests (<[sign_request_key requestId := v]> (sign_requests s)) s.

Definition remove_sign_request (requestId : string) (s : local) : local :=
  with_sign_requests (delete (sign_request_key requestId) (sign_requests s)) s.

(** [!!s] for a stored string that may be missing. *)
Definition nonempty (o : option string) : bool :=
  match o with
  | Some s => negb (String.eqb s EmptyString)
  | None => false
  end.

Definition getNsec (s : local) : option string := postr_nsec s.

Definition isLoggedIn (s : local) : bool := nonempty (getNsec s).

Definition getSitePermissions (s : local) : list Permission :=
  postr_site_permissions s.

Definition setSitePermissions (perms : list Permission) (s : local) : local :=
  with_permissions perms s.

Definition other_domain (d : string) (p : Permission) : bool :=
  negb (String.eqb (domain p) d).

Definition addSitePermission (date_now : Z) (d : string) (ty : value)
    (dur : string) (expires : option Z) (s : local) : local :=
  let permissions := getSitePermissions s in
  let filtered := List.filter (other_domain d) permissions in
  setSitePermissions
    (filtered ++ [{| domain := d; type := ty; duration := dur;
                     expiresAt := expires; addedAt := date_now |}]) s.

Definition removeSitePermission (d : string) (s : local) : local :=
  let permissions := getSitePermissions s in
  let filtered := List.filter (other_domain d) permissions in
  setSitePermissions filtered s.

Inductive status := allowed | denied | unknown.

(** [p.expiresAt && p.expiresAt < now] *)
Definition expired (date_now : Z) (p : Permission) : bool :=
  match expiresAt p with
  | Some e => negb (e =? 0) && (e <? date_now)
  | None => false
  end.

Definition getSiteStatus (date_now : Z) (d : string) (s : local)
  : status * local :=
  let permissions := getSitePermissions s in
  match List.find (λ p, String.eqb (domain p) d) permissions with
  | None => (unknown, s)
  | Some permission =>
      if expired date_now permission
      then (unknown, removeSitePermission d s)
      else if negb (truthy (type permission))
      then (unknown, removeSitePermission d s)
      else if is_str (type permission) "deny"
      then (denied, s)
      else (allowed, s)
  end.

Definition cleanupExpiredPermissions (date_now : Z) (s : local)
  : nat * local :=
  let permissions := getSitePermissions s in
  let valid :=
    List.filter (λ p, truthy (type p) && negb (expired date_now p))
      permissions in
  (length permissions - length valid,
   if negb (length valid =? length permissions)%nat
   then setSitePermissions valid s else s)%nat.

Definition getSigningHistory (s : local) : list HistoryEntry :=
  postr_signing_history s.

Definition addSigningHistory (date_now : Z) (d : string) (kind id : value)
    (s : local) : local :=
  let history :=
    {| history_domain := d; eventKind := kind; eventId := id;
       timestamp := date_now |} :: getSigningHistory s in
  with_history (firstn 1000 history) s.

Definition getNotificationSettings (s : local) : NotificationSettings :=
  match postr_notification_settings s with
  | Some settings => settings
  | None => {| showAutoSignNotifications := true;
               enableSigningHistory := true |}
  end.

End Storage.

(** ** Request validator: Nip07Signer.validateEvent *)

Module Nip07Signer.
Import Js.

Definition dq : string := String "034"%char EmptyString.

Definition err_not_object : string := "Event is not an object".
Definition err_kind : string :=
  "Missing or invalid " +:+ dq +:+ "kind" +:+ dq +:+ " field".
Definition err_created_at : string :=
  "Missing or invalid " +:+ dq +:+ "created_at" +:+ dq +:+ " field".
Definition err_range : string :=
  dq +:+ "created_at" +:+ dq +:+ " is outside reasonable time range".
Definition err_tags : string :=
  "Missing or invalid " +:+ dq +:+ "tags" +:+ dq +:+ " field".
Definition err_content : string :=
  "Missing or invalid " +:+ dq +:+ "content" +:+ dq +:+ " field".

Definition oneHour : Z := 3600.

(** [Math.floor(Date.now() / 1000)] *)
Definition now_seconds (date_now : Z) : Z := date_now `div` 1000.

Definition check_kind (event : value) : list string :=
  if negb (String.eqb (typeof (field event "kind")) "number")
  then [err_kind] else [].

Definition check_created_at (date_now : Z) (event : value) : list string :=
  match field event "created_at" with
  | Num n =>
      let now := now_seconds date_now in
      if lt n (of_Z (now - oneHour)) || lt (of_Z (now + oneHour)) n
      then [err_range] else []
  | _ => [err_created_at]
  end.

Definition check_tags (event : value) : list string :=
  if negb (isArray (field event "tags")) then [err_tags] else [].

Definition check_content (event : value) : list string :=
  if negb (String.eqb (typeof (field event "content")) "string")
  then [err_content] else [].

Definition validateEvent (date_now : Z) (event : value) : list string :=
  if negb (truthy event) || negb (String.eqb (typeof event) "object")
  then [err_not_object]
  else check_kind event ++ check_created_at date_now event
       ++ check_tags event ++ check_content event.

(** The part of the nostr-tools library the signer calls
    ([_getNostrTools()]); each function may throw. *)
Record NostrTools := {
  nip19_decode : string → result (string * value);
  getPublicKey : value → result value;
  finishEvent : value → value → result value
}.

(** The private key behind the stored nsec. *)
Definition privateKey (tools : NostrTools) (s : Storage.local)
  : result value :=
  match Storage.getNsec s with
  | Some nsec =>
      if String.eqb nsec EmptyString then Throw "Not logged in"
      else
        '(ty, data) ← nip19_decode tools nsec;
        if String.eqb ty "nsec" then Ok data else Throw "Invalid nsec"
  | None => Throw "Not logged in"
  end.

Definition signEvent (tools : NostrTools) (s : Storage.local) (event : value)
  : result value :=
  key ← privateKey tools s;
  pubkey ← getPublicKey tools key;
  kind ← prop event "kind";
  created_at ← prop event "created_at";
  tags ← prop event "tags";
  content ← prop event "content";
  finishEvent tools
    (Obj [("kind", kind); ("created_at", created_at); ("tags", tags);
          ("content", content); ("pubkey", pubkey)])
    key.

Definition getPublicKey' (tools : NostrTools) (s : Storage.local)
  : result value :=
  key ← privateKey tools s;
  getPublicKey tools key.

End Nip07Signer.

(** ** The background script: the signing gateway *)

Module Background.
Import Js.

(** A JavaScript [Map] in insertion order: [set] on a present key changes
    the value in place, on a new key appends; [delete] leaves no entry for
    the key. *)
Section JsMap.
Context {K V : Type} `{EqDecision K}.

Fixpoint map_get (k : K) (m : list (K * V)) : option V :=
  match m with
  | [] => None
  | (k', v) :: rest => if decide (k' = k) then Some v else map_get k rest
  end.

Fixpoint map_set (k : K) (v : V) (m : list (K * V)) : list (K * V) :=
  match m with
  | [] => [(k, v)]
  | (k', v') :: rest =>
      if decide (k' = k) then (k, v) :: rest
      else (k', v') :: map_set k v rest
  end.

Definition map_delete (k : K) (m : list (K * V)) : list (K * V) :=
  List.filter (λ kv, negb (bool_decide (kv.1 = k))) m.
End JsMap.

(** The loop of the dialog-response handler: delete the first window
    whose request id is [requestId], then [break]. *)
Fixpoint untrack (requestId : option string) (m : list (Z * string))
  : list (Z * string) :=
  match m with
  | [] => []
  | (winId, reqId) :: rest =>
      if decide (Some reqId = requestId) then rest
      else (winId, reqId) :: untrack requestId rest
  end.

(** A reply channel: the [sendResponse] closure of one incoming message. *)
Definition channel := nat.

Record PendingRequest := {
  resolve : channel;
  event : value;
  domain : string;
  origin : option string
}.

Record state := {
  storage : Storage.local;
  pendingRequests : gmap string PendingRequest;
  dialogWindows : list (Z * string)
}.

Inductive response :=
| Result (v : value)       (* { result: v } *)
| Error (message : string) (* { error: message } *)
| Acknowledge.             (* { ok: true } *)

(** What a handler does to the outside world. *)
Inductive effect :=
| SendResponse (ch : channel) (r : response)
| SignEventCall (event : value)
| WindowsCreate (requestId : string)
| Notification (title message : string).

(** The message kinds modelled. GET_RELAYS and the four encryption kinds
    reply on their own channel and touch neither the permission store,
    the pending requests nor the dialog windows; they are left out. *)
Inductive message :=
| GET_PUBLIC_KEY
| SIGN_EVENT (event : value)
| SIGN_DIALOG_RESPONSE (requestId : option string) (approved : bool)
    (error : option string)
| OTHER.

Record request := {
  body : message;
  request_domain : option string;
  request_origin : option string
}.

(** [sender.tab?.url]: absent, not parsable by [new URL], or parsed into
    hostname and origin. *)
Inductive tab :=
| NoTab
| BadUrl
| Url (hostname origin : string).

Definition unknown_site : string * option string :=
  ("unknown", Some "unknown").

(** The requesting site, as the handler works it out. *)
Definition resolve_site (req : request) (sender : tab)
  : string * option string :=
  let '(d, o) :=
    if Storage.nonempty (request_domain req)
    then (request_domain req, request_origin req)
    else match sender with
         | NoTab => (request_domain req, request_origin req)
         | BadUrl => (Some "unknown", Some "unknown")
         | Url hostname origin => (Some hostname, Some origin)
         end in
  match d with
  | Some d' => if String.eqb d' EmptyString then unknown_site else (d', o)
  | None => unknown_site
  end.

(** [s || d] for a string [s] that may be missing. *)
Definition or_else (s : option string) (d : string) : string :=
  match s with
  | Some s' => if String.eqb s' EmptyString then d else s'
  | None => d
  end.

Definition not_logged_in : string :=
  "Not logged in. Please login to Postr extension.".

(** The history write of both signing paths: nothing when the history is
    disabled; reading [signedEvent.id] may throw. *)
Definition record_history (date_now : Z) (d : string) (ev signed : value)
    (s : Storage.local) : result Storage.local :=
  if Storage.enableSigningHistory (Storage.getNotificationSettings s)
  then
    kind ← prop ev "kind";
    id ← prop signed "id";
    Ok (Storage.addSigningHistory date_now d kind id s)
  else Ok s.

Definition with_storage (s : Storage.local) (g : state) : state :=
  {| storage := s;
     pendingRequests := pendingRequests g;
     dialogWindows := dialogWindows g |}.

Section Handlers.
Variable tools : Nip07Signer.NostrTools.
Variable date_now : Z.

Definition handle_get_public_key (sendResponse : channel) (g : state)
  : state * list effect :=
  if negb (Storage.isLoggedIn (storage g))
  then (g, [SendResponse sendResponse (Error not_logged_in)])
  else match Nip07Signer.getPublicKey' tools (storage g) with
       | Ok pubkey => (g, [SendResponse sendResponse (Result pubkey)])
       | Throw m => (g, [SendResponse sendResponse (Error m)])
       end.

(** The auto-sign branch, inside the handler's [try]. *)
Definition auto_sign (d : string) (ev : value) (sendResponse : channel)
    (g : state) : state * list effect :=
  match Nip07Signer.signEvent tools (storage g) ev with
  | Throw m => (g, [SignEventCall ev; SendResponse sendResponse (Error m)])
  | Ok signedEvent =>
      match record_history date_now d ev signedEvent (storage g) with
      | Throw m =>
          (g, [SignEventCall ev; SendResponse sendResponse (Error m)])
      | Ok s' =>
          let notify :=
            if Storage.showAutoSignNotifications
                 (Storage.getNotificationSettings (storage g))
            then [Notification "Postr" ("Auto-signed event for " +:+ d)]
            else [] in
          (with_storage s' g,
           [SignEventCall ev] ++ notify
           ++ [SendResponse sendResponse (Result signedEvent)])
      end
  end.

(** The dialog branch: register the pending request, store the payload,
    open the window; the caller gets no reply yet. *)
Definition open_dialog (d : string) (o : option string) (ev : value)
    (sendResponse : channel) (g : state) : state * list effect :=
  let requestId : string := pretty date_now in
  ({| storage :=
        Storage.set_sign_request requestId
          {| Storage.request_event := ev;
             Storage.request_domain := d;
             Storage.request_origin := o |} (storage g);
      pendingRequests :=
        <[requestId := {| resolve := sendResponse; event := ev;
                          domain := d; origin := o |}]>
          (pendingRequests g);
      dialogWindows := dialogWindows g |},
   [WindowsCreate requestId]).

Definition handle_sign_event (d : string) (o : option string) (ev : value)
    (sendResponse : channel) (g : state) : state * list effect :=
  if negb (Storage.isLoggedIn (storage g))
  then (g, [SendResponse sendResponse (Error not_logged_in)])
  else
    let validationErrors := Nip07Signer.validateEvent date_now ev in
    if (0 <? length validationErrors)%nat
    then (g, [SendResponse sendResponse
                (Error ("Malformed event: " +:+ join ", " validationErrors))])
    else
      let '(siteStatus, s') := Storage.getSiteStatus date_now d (storage g) in
      let g' := with_storage s' g in
      match siteStatus with
      | Storage.denied =>
          (g', [SendResponse sendResponse (Error "User rejected")])
      | Storage.allowed => auto_sign d ev sendResponse g'
      | Storage.unknown => open_dialog d o ev sendResponse g'
      end.

Definition handle_dialog_response (requestId : option string)
    (approved : bool) (error : option string) (sendResponse : channel)
    (g : state) : state * list effect :=
  match requestId ≫= (λ id, option_map (pair id) (pendingRequests g !! id)) with
  | Some (id, pendingRequest) =>
      let s := Storage.remove_sign_request id (storage g) in
      let g' := {| storage := s;
                   pendingRequests := delete id (pendingRequests g);
                   dialogWindows := untrack requestId (dialogWindows g) |} in
      if approved then
        let ev := event pendingRequest in
        match signedEvent ← Nip07Signer.signEvent tools s ev;
              s' ← record_history date_now (domain pendingRequest) ev
                     signedEvent s;
              Ok (signedEvent, s') with
        | Ok (signedEvent, s') =>
            (with_storage s' g',
             [SignEventCall ev;
              SendResponse (resolve pendingRequest) (Result signedEvent);
              SendResponse sendResponse Acknowledge])
        | Throw m =>
            (g',
             [SignEventCall ev;
              SendResponse (resolve pendingRequest) (Error m);
              SendResponse sendResponse Acknowledge])
        end
      else
        (g',
         [SendResponse (resolve pendingRequest)
            (Error (or_else error "User rejected"));
          SendResponse sendResponse Acknowledge])
  | None => (g, [SendResponse sendResponse Acknowledge])
  end.

(** chrome.runtime.onMessage *)
Definition onMessage (req : request) (sender : tab) (sendResponse : channel)
    (g : state) : state * list effect :=
  let '(d, o) := resolve_site req sender in
  match body req with
  | GET_PUBLIC_KEY => handle_get_public_key sendResponse g
  | SIGN_EVENT ev => handle_sign_event d o ev sendResponse g
  | SIGN_DIALOG_RESPONSE requestId approved error =>
      handle_dialog_response requestId approved error sendResponse g
  | OTHER => (g, [SendResponse sendResponse (Error "Unknown message type")])
  end.

(** The callback of chrome.windows.create. *)
Definition onWindowCreated (win : option Z) (requestId : string)
    (g : state) : state * list effect :=
  match win with
  | Some id =>
      ({| storage := storage g;
          pendingRequests := pendingRequests g;
          dialogWindows := map_set id requestId (dialogWindows g) |}, [])
  | None => (g, [])
  end.

(** chrome.windows.onRemoved *)
Definition onRemoved (windowId : Z) (g : state) : state * list effect :=
  match map_get windowId (dialogWindows g) with
  | None => (g, [])
  | Some requestId =>
      if String.eqb requestId EmptyString then (g, [])
      else
        let windows := map_delete windowId (dialogWindows g) in
        match pendingRequests g !! requestId with
        | Some pendingRequest =>
            ({| storage := Storage.remove_sign_request requestId (storage g);
                pendingRequests := delete requestId (pendingRequests g);
                dialogWindows := windows |},
             [SendResponse (resolve pendingRequest)
                (Error "User closed dialog")])
        | None =>
            ({| storage := storage g;
                pendingRequests := pendingRequests g;
                dialogWindows := windows |}, [])
        end
  end.
End Handlers.

(** The background script right after it was loaded: both maps empty. *)
Definition loaded (s : Storage.local) : state :=
  {| storage := s; pendingRequests := ∅; dialogWindows := [] |}.

(** What the browser delivers to the background script. *)
Inductive input :=
| Message (req : request) (sender : tab) (sendResponse : channel)
| WindowCreated (win : option Z) (requestId : string)
| WindowRemoved (windowId : Z).

Definition step (tools : Nip07Signer.NostrTools) (date_now : Z) (i : input)
    (g : state) : state * list effect :=
  match i with
  | Message req sender sendResponse =>
      onMessage tools date_now req sender sendResponse g
  | WindowCreated win requestId => onWindowCreated win requestId g
  | WindowRemoved windowId => onRemoved windowId g
  end.

(** A run: the inputs in arrival order, each with the clock reading of
    its dispatch; the effects are collected in order. *)
Fixpoint run (tools : Nip07Signer.NostrTools) (inputs : list (Z * input))
    (g : state) : state * list effect :=
  match inputs with
  | [] => (g, [])
  | (date_now, i) :: rest =>
      let '(g1, e1) := step tools date_now i g in
      let '(g2, e2) := run tools rest g1 in
      (g2, e1 ++ e2)
  end.

(** How often a reply channel was used in a list of effects. *)
Definition replies (ch : channel) (effects : list effect) : nat :=
  length (List.filter
            (λ e, match e with
                  | SendResponse ch' _ => Nat.eqb ch' ch
                  | _ => false
                  end) effects).

(** How many dialog windows a list of effects opens. *)
Definition dialogs (effects : list effect) : nat :=
  length (List.filter
            (λ e, match e with WindowsCreate _ => true | _ => false end)
            effects).

End Background.

(** ** The approval dialog: popup/sign-dialog.js *)

Module SignDialog.
Import Js.

(** The two halves of an option of the permission select:
    [allow_once], [allow_5], ..., [deny_permanent]. *)
Inductive action := allow | deny.
Inductive duration := once | minutes (m : Z) | permanent.

Definition action_string (a : action) : string :=
  match a with allow => "allow" | deny => "deny" end.

Definition duration_string (d : duration) : string :=
  match d with
  | once => "once"
  | minutes m => pretty m
  | permanent => "permanent"
  end.

(** What the dialog loaded for the request id of its URL ([None]: no [id]
    parameter). *)
Record dialog := {
  requestId : option string;
  eventData : value;
  domain : string;
  origin : option string
}.

(** DOMContentLoaded: read [sign_request_<id>]; [None] is the
    "Sign request not found" view. *)
Definition load (id : option string) (s : Storage.local) : option dialog :=
  match Storage.sign_requests s
          !! Storage.sign_request_key (default "null" id) with
  | Some stored =>
      Some {| requestId := id;
              eventData := Storage.request_event stored;
              domain := Storage.request_domain stored;
              origin := Storage.request_origin stored |}
  | None => None
  end.

(** renderDialog shows the approve and reject buttons only for an event
    that passes validation again; otherwise a close button. *)
Definition shows_sign_buttons (date_now : Z) (dlg : dialog) : bool :=
  negb (0 <? length (Nip07Signer.validateEvent date_now (eventData dlg)))%nat.

Definition sendResponse (dlg : dialog) (approved : bool)
    (error : option string) : Background.request :=
  {| Background.body :=
       Background.SIGN_DIALOG_RESPONSE (requestId dlg) approved error;
     Background.request_domain := None;
     Background.request_origin := None |}.

(** The close button of the malformed-event view. *)
Definition close_click (dlg : dialog) : Background.request :=
  sendResponse dlg false (Some "Malformed event").

Definition reject_click (dlg : dialog) : Background.request :=
  sendResponse dlg false None.

(** The approve button: store the permission unless the duration is
    [once], then send the response. *)
Definition approve_click (date_now : Z) (dlg : dialog) (a : action)
    (d : duration) (s : Storage.local) : Storage.local * Background.request :=
  let isDeny := match a with deny => true | allow => false end in
  let expiresAt :=
    match d with
    | minutes m => Some (date_now + m * 60 * 1000)
    | _ => None
    end in
  let s' :=
    match d with
    | once => s
    | _ =>
        Storage.addSitePermission date_now (domain dlg)
          (Str (if isDeny then "deny" else "allow"))
          (duration_string d) expiresAt s
    end in
  (s', sendResponse dlg (negb isDeny) None).

(** The approve click followed by the delivery of its message to the
    background script. *)
Definition approve (tools : Nip07Signer.NostrTools) (click_time : Z)
    (dispatch_time : Z) (dlg : dialog) (a : action) (d : duration)
    (sender : Background.tab) (ack : Background.channel)
    (g : Background.state) : Background.state * list Background.effect :=
  let '(s', msg) := approve_click click_time dlg a d (Background.storage g) in
  Background.onMessage tools dispatch_time msg sender ack
    (Background.with_storage s' g).

End SignDialog.


(** ** Storage: relays, account and history clean-up *)

Module Relays.
Import Js.

Record Relay := {
  url : string;
  enabled : bool;
  isDefault : bool
}.

(** What one page of the extension sees of the relays: the stored array
    under [postr_relays] ([None]: nothing, or not an array), and its own
    copy of [Storage.DEFAULTS.RELAYS]: [getRelays] returns that array
    itself when nothing is stored, so a [push] or an assignment by the
    caller changes the defaults of the page as well. *)
Record context := {
  postr_relays : option (list Relay);
  DEFAULTS_RELAYS : list Relay
}.

Definition DEFAULTS : list Relay :=
  [{| url := "wss://nostr.ac"; enabled := true; isDefault := true |};
   {| url := "wss://relay.damus.io"; enabled := true; isDefault := false |};
   {| url := "wss://nos.lol"; enabled := true; isDefault := false |};
   {| url := "wss://relay.nostr.band"; enabled := true; isDefault := false |};
   {| url := "wss://relay.snort.social"; enabled := true;
      isDefault := false |}].

(** A page whose script was just loaded. *)
Definition fresh (stored : option (list Relay)) : context :=
  {| postr_relays := stored; DEFAULTS_RELAYS := DEFAULTS |}.

Definition getRelays (c : context) : list Relay :=
  match postr_relays c with
  | Some relays => relays
  | None => DEFAULTS_RELAYS c
  end.

(** [setRelays(relays)] for the array [relays] that [getRelays] returned
    and the caller changed in place: the array is stored, and it is the
    defaults array if nothing was stored before. *)
Definition store_changed (relays : list Relay) (c : context) : context :=
  {| postr_relays := Some relays;
     DEFAULTS_RELAYS :=
       match postr_relays c with
       | Some _ => DEFAULTS_RELAYS c
       | None => relays
       end |}.

(** [setRelays(relays)] for a new array. *)
Definition setRelays (relays : list Relay) (c : context) : context :=
  {| postr_relays := Some relays; DEFAULTS_RELAYS := DEFAULTS_RELAYS c |}.

Definition has_url (u : string) (relays : list Relay) : bool :=
  existsb (λ r, String.eqb (url r) u) relays.

Definition addRelay (u : string) (c : context) : context :=
  let relays := getRelays c in
  if has_url u relays then c
  else store_changed
         (relays ++ [{| url := u; enabled := true; isDefault := false |}]) c.

Definition removeRelay (u : string) (c : context) : context :=
  let relays := getRelays c in
  setRelays (List.filter (λ r, negb (String.eqb (url r) u)) relays) c.

(** [relay.enabled = !relay.enabled] on the first relay with the url. *)
Fixpoint toggle_first (u : string) (relays : list Relay) : list Relay :=
  match relays with
  | [] => []
  | r :: rest =>
      if String.eqb (url r) u
      then {| url := url r; enabled := negb (enabled r);
              isDefault := isDefault r |} :: rest
      else r :: toggle_first u rest
  end.

Definition toggleRelay (u : string) (c : context) : context :=
  let relays := getRelays c in
  if has_url u relays then store_changed (toggle_first u relays) c else c.

Definition getEnabledRelays (c : context) : list Relay :=
  List.filter enabled (getRelays c).

(** The loop of [migrateRelays]: each default relay whose url is missing
    is pushed onto the current relays, and the flag is raised. *)
Fixpoint add_missing (defaults current : list Relay) (needsUpdate : bool)
  : list Relay * bool :=
  match defaults with
  | [] => (current, needsUpdate)
  | defaultRelay :: rest =>
      if has_url (url defaultRelay) current
      then add_missing rest current needsUpdate
      else add_missing rest (current ++ [defaultRelay]) true
  end.

(** [migrateRelays]: the flag returned and the page afterwards. When
    nothing is stored the current relays are the defaults array itself;
    then no url is missing and nothing is pushed. *)
Definition migrateRelays (c : context) : bool * context :=
  let currentRelays := getRelays c in
  let '(migrated, needsUpdate) :=
    add_missing (DEFAULTS_RELAYS c) currentRelays false in
  (needsUpdate, if needsUpdate then store_changed migrated c else c).

End Relays.

Module Account.

(** [clearAccount], on the keys modelled: the nsec is removed (npub,
    metadata and the last status are not modelled); permissions, history
    and settings stay. *)
Definition clearAccount (s : Storage.local) : Storage.local :=
  {| Storage.postr_nsec := None;
     Storage.postr_site_permissions := Storage.postr_site_permissions s;
     Storage.postr_signing_history := Storage.postr_signing_history s;
     Storage.postr_notification_settings :=
       Storage.postr_notification_settings s;
     Storage.sign_requests := Storage.sign_requests s |}.

(** [clearSigningHistory]: the key is removed, [getSigningHistory] then
    returns the empty array. *)
Definition clearSigningHistory (s : Storage.local) : Storage.local :=
  Storage.with_history [] s.

End Account.

(** ** The signer: encryption and decryption *)

Module Encryption.
Import Js.

(** The encryption functions of the nostr-tools library; each may
    throw. *)
Record CryptoTools := {
  nip04_encrypt : value → value → value → result value;
  nip04_decrypt : value → value → value → result value;
  nip44_getConversationKey : value → value → result value;
  nip44_encrypt : value → value → result value;
  nip44_decrypt : value → value → result value
}.

Section Signer.
Variable tools : Nip07Signer.NostrTools.
Variable crypto : CryptoTools.

Definition nip04Encrypt (s : Storage.local) (pubkey plaintext : value)
  : result value :=
  key ← Nip07Signer.privateKey tools s;
  senderPubkey ← Nip07Signer.getPublicKey tools key;
  nip04_encrypt crypto key pubkey plaintext.

Definition nip04Decrypt (s : Storage.local) (pubkey ciphertext : value)
  : result value :=
  key ← Nip07Signer.privateKey tools s;
  nip04_decrypt crypto key pubkey ciphertext.

(** The loop of [nip17Encrypt] over the recipients; the first failure
    ends it. *)
Fixpoint encrypt_each (key plaintext : value) (recipients : list value)
  : result (list value) :=
  match recipients with
  | [] => Ok []
  | recipientPubkey :: rest =>
      conversationKey ← nip44_getConversationKey crypto key recipientPubkey;
      encrypted ← nip44_encrypt crypto plaintext conversationKey;
      messages ← encrypt_each key plaintext rest;
      Ok (Obj [("pubkey", recipientPubkey); ("ciphertext", encrypted)]
          :: messages)
  end.

(** [nip17Encrypt] for an array of recipients. *)
Definition nip17Encrypt (s : Storage.local) (recipients : list value)
    (plaintext : value) : result value :=
  key ← Nip07Signer.privateKey tools s;
  senderPubkey ← Nip07Signer.getPublicKey tools key;
  messages ← encrypt_each key plaintext recipients;
  Ok (Arr messages).

Definition nip17Decrypt (s : Storage.local) (ciphertext senderPubkey : value)
  : result value :=
  key ← Nip07Signer.privateKey tools s;
  conversationKey ← nip44_getConversationKey crypto key senderPubkey;
  nip44_decrypt crypto ciphertext conversationKey.

End Signer.
End Encryption.

(** ** The background script: the other message kinds and the install
    hook *)

Module Handlers.
Import Js Background.

(** [relayMap[url] = v] on the object under construction, for a url
    that is an ordinary property name. *)
Fixpoint set_field (k : string) (v : value) (fields : list (string * value))
  : list (string * value) :=
  match fields with
  | [] => [(k, v)]
  | (k', v') :: rest =>
      if String.eqb k k' then (k, v) :: rest
      else (k', v') :: set_field k v rest
  end.

Definition relay_capabilities : value :=
  Obj [("read", Bool true); ("write", Bool true)].

(** The object sent for GET_RELAYS, built relay by relay. *)
Definition relayMap (relays : list Relays.Relay) : list (string * value) :=
  fold_left (λ fields r, set_field (Relays.url r) relay_capabilities fields)
    relays [].

Definition handle_get_relays (c : Relays.context) (sendResponse : channel)
  : list effect :=
  [SendResponse sendResponse
     (Result (Obj (relayMap (Relays.getEnabledRelays c))))].

(** The four encryption kinds, with the fields of the request they read.
    NIP17_ENCRYPT is modelled for a [recipients] field that is an
    array. *)
Inductive crypto_message :=
| NIP04_ENCRYPT (pubkey plaintext : value)
| NIP04_DECRYPT (pubkey ciphertext : value)
| NIP17_ENCRYPT (recipients : list value) (plaintext : value)
| NIP17_DECRYPT (ciphertext senderPubkey : value).

(** The switch cases of the four kinds: the signer's result is sent back;
    what it throws is caught by the handler's outer [try] and sent as an
    error. *)
Definition handle_crypto (tools : Nip07Signer.NostrTools)
    (crypto : Encryption.CryptoTools) (m : crypto_message)
    (sendResponse : channel) (g : state) : state * list effect :=
  let outcome :=
    match m with
    | NIP04_ENCRYPT pubkey plaintext =>
        Encryption.nip04Encrypt tools crypto (storage g) pubkey plaintext
    | NIP04_DECRYPT pubkey ciphertext =>
        Encryption.nip04Decrypt tools crypto (storage g) pubkey ciphertext
    | NIP17_ENCRYPT recipients plaintext =>
        Encryption.nip17Encrypt tools crypto (storage g) recipients plaintext
    | NIP17_DECRYPT ciphertext senderPubkey =>
        Encryption.nip17Decrypt tools crypto (storage g) ciphertext
          senderPubkey
    end in
  match outcome with
  | Ok v => (g, [SendResponse sendResponse (Result v)])
  | Throw message => (g, [SendResponse sendResponse (Error message)])
  end.

(** chrome.runtime.onInstalled, on the relays and the permissions (the
    theme is not modelled): default relays are stored when the relays
    read are empty, missing default relays are added, and the permission
    store is swept. *)
Definition onInstalled (date_now : Z) (c : Relays.context)
    (s : Storage.local) : Relays.context * Storage.local :=
  let relays := Relays.getRelays c in
  let c1 :=
    if (length relays =? 0)%nat
    then Relays.setRelays (Relays.DEFAULTS_RELAYS c) c else c in
  let c2 := (Relays.migrateRelays c1).2 in
  (c2, (Storage.cleanupExpiredPermissions date_now s).2).

End Handlers.

(** ** The popup: the status of the site in the active tab *)

Module Popup.
Import Js.

(** [formatTimeRemaining(ms)] *)
Definition formatTimeRemaining (ms : Z) : string :=
  if ms <=? 0 then "expired"
  else
    let minutes := ms `div` 60000 in
    let hours := minutes `div` 60 in
    let remainingMinutes := minutes `mod` 60 in
    if (0 <? hours) && (0 <? remainingMinutes)
    then pretty hours +:+ "h " +:+ pretty remainingMinutes +:+ "m left"
    else if 0 <? hours then pretty hours +:+ "h left"
    else pretty minutes +:+ "m left".

(** The active tab as [loadSiteStatus] sees it: none (or one without
    url), a url [new URL] rejects, or a url with its hostname. *)
Inductive active_tab :=
| NoActiveTab
| Unparsable
| Page (tab_url hostname : string).

(** What [loadSiteStatus] puts on the popup: nothing (it returns before
    it touches the box of the site), or the domain with the permission
    text, its class and whether the revoke button is shown. *)
Inductive shown :=
| Hidden
| Site (domain text class : string) (revoke : bool).

Definition no_access (d : string) : shown :=
  Site d "No access" "site-permission no-access" false.

Definition loadSiteStatus (date_now : Z) (tab : active_tab)
    (s : Storage.local) : shown * Storage.local :=
  match tab with
  | NoActiveTab | Unparsable => (Hidden, s)
  | Page tab_url d =>
      if String.eqb d EmptyString
         || String.prefix "chrome://" tab_url
         || String.prefix "chrome-extension://" tab_url
      then (Hidden, s)
      else
        let permissions := Storage.getSitePermissions s in
        match List.find (λ p, String.eqb (Storage.domain p) d) permissions
        with
        | None => (no_access d, s)
        | Some permission =>
            if Storage.expired date_now permission
            then (no_access d, Storage.removeSitePermission d s)
            else if negb (truthy (Storage.type permission))
            then (no_access d, Storage.removeSitePermission d s)
            else
              let isDeny := is_str (Storage.type permission) "deny" in
              let text :=
                match Storage.expiresAt permission with
                | Some e =>
                    if e =? 0
                    then if isDeny then "Always denied" else "Always allowed"
                    else
                      let timeLeft := formatTimeRemaining (e - date_now) in
                      if isDeny then "Denied -- " +:+ timeLeft
                      else "Allowed -- " +:+ timeLeft
                | None =>
                    if isDeny then "Always denied" else "Always allowed"
                end in
              (Site d text
                 ("site-permission " +:+
                  (if isDeny then "denied" else "allowed")) true, s)
        end
  end.

(** The revoke button of the popup. *)
Definition revoke_click (d : string) (s : Storage.local)
  : shown * Storage.local :=
  (no_access d, Storage.removeSitePermission d s).

End Popup.
(** * Vocabulary of the properties *)

Module Spec.
Import Js Nip07Signer.

(** ** Events *)

(** The events the validator looks into: objects (arrays included). *)
Definition is_object (v : value) : bool :=
  match v with
  | Obj _ | Arr _ => true
  | _ => false
  end.

Definition is_number (v : value) : Prop := ∃ n, v = Num n.
Definition is_string (v : value) : Prop := ∃ s, v = Str s.

(** [n] lies more than an hour away from [now] (in seconds). NaN is not
    on either side. *)
Definition out_of_range (now : Z) (n : number) : Prop :=
  match n with
  | Finite q => (q < inject_Z (now - 3600))%Q ∨ (inject_Z (now + 3600) < q)%Q
  | NaN => False
  | PosInf | NegInf => True
  end.

(** An event whose [kind] is 1.5 and whose [created_at] is half a second
    past 1700000000. *)
Definition fractional_event : value :=
  Obj [("kind", Num (Finite (3 # 2)));
       ("created_at", Num (Finite (3400000001 # 2)));
       ("tags", Arr []);
       ("content", Str EmptyString)].

(** ** The permission store *)

(** The records stored for a site, in storage order, and the one a lookup
    finds. *)
Definition permissions_for (d : string) (s : Storage.local)
  : list Storage.Permission :=
  List.filter (λ p, String.eqb (Storage.domain p) d)
    (Storage.postr_site_permissions s).

Definition record_for (d : string) (s : Storage.local)
  : option Storage.Permission :=
  head (permissions_for d s).

(** The record has no expiry, or one that is not in the past. *)
Definition unexpired (date_now : Z) (p : Storage.Permission) : Prop :=
  match Storage.expiresAt p with
  | Some e => date_now ≤ e
  | None => True
  end.

(** The calls that write the permission store: upsert
    ([addSitePermission], with the clock reading of the call) and revoke
    ([removeSitePermission]). *)
Inductive call :=
| upsert (date_now : Z) (d : string) (ty : value) (dur : string)
    (expires : option Z)
| revoke (d : string).

Definition target (c : call) : string :=
  match c with
  | upsert _ d _ _ _ => d
  | revoke d => d
  end.

Definition perform (s : Storage.local) (c : call) : Storage.local :=
  match c with
  | upsert date_now d ty dur expires =>
      Storage.addSitePermission date_now d ty dur expires s
  | revoke d => Storage.removeSitePermission d s
  end.

Definition perform_all (calls : list call) (s : Storage.local)
  : Storage.local :=
  foldl perform s calls.

Definition calls_for (d : string) (calls : list call) : list call :=
  List.filter (λ c, String.eqb (target c) d) calls.

(** What the last call for a site leaves in the store for it. *)
Definition written_by (c : call) : list Storage.Permission :=
  match c with
  | upsert date_now d ty dur expires =>
      [{| Storage.domain := d; Storage.type := ty; Storage.duration := dur;
          Storage.expiresAt := expires; Storage.addedAt := date_now |}]
  | revoke _ => []
  end.

(** ** The gateway *)

(** The states the background script can be in: it starts with both maps
    empty over whatever the storage holds; it handles messages, the
    callbacks of the windows it asked for (which carry the request id it
    made up for the window) and window removals; and other pages of the
    extension may write the storage at any time. *)
Inductive reachable (tools : NostrTools) : Background.state → Prop :=
| reachable_loaded s :
    reachable tools (Background.loaded s)
| reachable_message g date_now req sender sendResponse :
    reachable tools g →
    reachable tools
      (Background.onMessage tools date_now req sender sendResponse g).1
| reachable_created g win (date_now : Z) :
    reachable tools g →
    reachable tools (Background.onWindowCreated win (pretty date_now) g).1
| reachable_removed g windowId :
    reachable tools g →
    reachable tools (Background.onRemoved windowId g).1
| reachable_storage g s :
    reachable tools g →
    reachable tools (Background.with_storage s g).

(** The reply channel of an input, if it is a message, and the channels
    of a run. *)
Definition channel_of (i : Background.input) : option Background.channel :=
  match i with
  | Background.Message _ _ ch => Some ch
  | _ => None
  end.

Definition channels (inputs : list (Z * Background.input))
  : list Background.channel :=
  omap (λ ti, channel_of ti.2) inputs.

(** The channels replied on by a list of effects, in order. *)
Definition reply_channels (effects : list Background.effect)
  : list Background.channel :=
  omap (λ e, match e with
             | Background.SendResponse ch _ => Some ch
             | _ => None
             end) effects.

Definition occurrences (ch : Background.channel)
    (l : list Background.channel) : nat :=
  length (List.filter (λ c, Nat.eqb c ch) l).

(** What one transition does to the pending requests and which channels
    it replies on: nothing; a reply to the sender; a new pending request
    holding the sender's channel; the resolution of a pending request by
    a dialog response (acknowledged to the sender); the resolution of a
    pending request by the removal of its window. *)
Inductive outcome (i : Background.input) (g g' : Background.state)
    (effects : list Background.effect) : Prop :=
| outcome_quiet :
    channel_of i = None →
    Background.pendingRequests g' = Background.pendingRequests g →
    reply_channels effects = [] →
    outcome i g g' effects
| outcome_reply ch :
    channel_of i = Some ch →
    Background.pendingRequests g' = Background.pendingRequests g →
    reply_channels effects = [ch] →
    outcome i g g' effects
| outcome_pending ch requestId p :
    channel_of i = Some ch →
    Background.resolve p = ch →
    Background.pendingRequests g'
      = <[requestId := p]> (Background.pendingRequests g) →
    reply_channels effects = [] →
    outcome i g g' effects
| outcome_resolved ch requestId p :
    channel_of i = Some ch →
    Background.pendingRequests g !! requestId = Some p →
    Background.pendingRequests g'
      = delete requestId (Background.pendingRequests g) →
    reply_channels effects = [Background.resolve p; ch] →
    outcome i g g' effects
| outcome_abandoned requestId p :
    channel_of i = None →
    Background.pendingRequests g !! requestId = Some p →
    Background.pendingRequests g'
      = delete requestId (Background.pendingRequests g) →
    reply_channels effects = [Background.resolve p] →
    outcome i g g' effects.

(** The resolvers of a state and the replies given so far, for the
    channels [used] by the messages so far: a pending resolver was not
    called yet and belongs to a message received; two pending requests
    hold different resolvers; no channel was replied on twice, and none
    that no message brought. *)
Record resolvers_ok (used : list Background.channel) (g : Background.state)
    (effects : list Background.effect) : Prop := {
  pending_silent : ∀ requestId p,
    Background.pendingRequests g !! requestId = Some p →
    Background.replies (Background.resolve p) effects = 0%nat
    ∧ Background.resolve p ∈ used;
  pending_distinct : ∀ id1 id2 p1 p2,
    Background.pendingRequests g !! id1 = Some p1 →
    Background.pendingRequests g !! id2 = Some p2 →
    Background.resolve p1 = Background.resolve p2 → id1 = id2;
  replied_once : ∀ ch, (Background.replies ch effects ≤ 1)%nat;
  unused_silent : ∀ ch, ch ∉ used → Background.replies ch effects = 0%nat
}.

(** ** The approval dialog *)

(** The record an approve click stores for a choice other than "once". *)
Definition chosen (click_time : Z) (dlg : SignDialog.dialog)
    (a : SignDialog.action) (d : SignDialog.duration) : Storage.Permission :=
  {| Storage.domain := SignDialog.domain dlg;
     Storage.type := Str (SignDialog.action_string a);
     Storage.duration := SignDialog.duration_string d;
     Storage.expiresAt :=
       match d with
       | SignDialog.minutes m => Some (click_time + m * 60 * 1000)
       | _ => None
       end;
     Storage.addedAt := click_time |}.

(** ** Sample data *)

Definition sample_site : string := "site.example".
Definition sample_now : Z := 1700000000000.

Definition store_of (nsec : option string) (perms : list Storage.Permission)
  : Storage.local :=
  {| Storage.postr_nsec := nsec;
     Storage.postr_site_permissions := perms;
     Storage.postr_signing_history := [];
     Storage.postr_notification_settings := None;
     Storage.sign_requests := ∅ |}.

Definition record_of (ty : value) (expires : option Z) : Storage.Permission :=
  {| Storage.domain := sample_site; Storage.type := ty;
     Storage.duration := "permanent"; Storage.expiresAt := expires;
     Storage.addedAt := 1600000000000 |}.

(** A stand-in for the cryptographic library: every nsec decodes, every
    event is signed. *)
Definition sample_tools : NostrTools :=
  {| nip19_decode := λ nsec, Ok ("nsec", Str nsec);
     getPublicKey := λ _, Ok (Str "pubkey");
     finishEvent := λ template _,
       Ok (Obj (("id", Str "event-id") :: ("sig", Str "signature")
                :: match template with Obj fields => fields | _ => [] end)) |}.

(** A text note created at the sample clock reading, and an event two
    hours stale. *)
Definition sample_event : value :=
  Obj [("kind", Num (of_Z 1)); ("created_at", Num (of_Z 1700000000));
       ("tags", Arr []); ("content", Str "hello")].

Definition stale_event : value :=
  Obj [("kind", Num (of_Z 1)); ("created_at", Num (of_Z 1699992800));
       ("tags", Arr []); ("content", Str "hello")].

Definition sign_request (site : string) (ev : value) : Background.request :=
  {| Background.body := Background.SIGN_EVENT ev;
     Background.request_domain := Some site;
     Background.request_origin := Some ("https://" +:+ site) |}.

Definition logged_in : Storage.local := store_of (Some "nsec1") [].

(** One request from an unknown site waiting in its dialog window 7. *)
Definition awaiting_approval : Background.state :=
  (Background.onWindowCreated (Some 7) (pretty sample_now)
     (Background.onMessage sample_tools sample_now
        (sign_request sample_site sample_event) Background.NoTab 1%nat
        (Background.loaded logged_in)).1).1.

Definition dialog_response (id : string) (approved : bool)
  : Background.request :=
  {| Background.body :=
       Background.SIGN_DIALOG_RESPONSE (Some id) approved None;
     Background.request_domain := None;
     Background.request_origin := None |}.

(** Two requests dispatched at the same clock reading, their two
    windows, an approval in one of them, and both windows closing. *)
Definition same_instant : list (Z * Background.input) :=
  [(sample_now,
    Background.Message (sign_request "a.example" sample_event)
      Background.NoTab 1%nat);
   (sample_now,
    Background.Message (sign_request "b.example" sample_event)
      Background.NoTab 2%nat)].

Definition same_instant_resolved : list (Z * Background.input) :=
  same_instant ++
  [(sample_now + 40, Background.WindowCreated (Some 11) (pretty sample_now));
   (sample_now + 45, Background.WindowCreated (Some 12) (pretty sample_now));
   (sample_now + 5000,
    Background.Message (dialog_response (pretty sample_now) true)
      Background.NoTab 3%nat);
   (sample_now + 5010, Background.WindowRemoved 12);
   (sample_now + 9000, Background.WindowRemoved 11)].

(** The dialog of window 7 as it loaded the request. *)
Definition sample_dialog : SignDialog.dialog :=
  {| SignDialog.requestId := Some (pretty sample_now);
     SignDialog.eventData := sample_event;
     SignDialog.domain := sample_site;
     SignDialog.origin := Some ("https://" +:+ sample_site) |}.

End Spec.

(** * More vocabulary *)

Module Terms.
Import Js.

(** The records a sweep of the permission store keeps. *)
Definition valid (date_now : Z) (p : Storage.Permission) : bool :=
  truthy (Storage.type p) && negb (Storage.expired date_now p).

(** The event has the four fields in the types the validator asks
    for. *)
Definition well_typed (ev : value) : Prop :=
  Spec.is_object ev = true
  ∧ Spec.is_number (field ev "kind")
  ∧ Spec.is_number (field ev "created_at")
  ∧ isArray (field ev "tags") = true
  ∧ Spec.is_string (field ev "content").

(** A library whose decoder rejects every nsec. *)
Definition rejecting_tools : Nip07Signer.NostrTools :=
  {| Nip07Signer.nip19_decode := λ _, Throw "Invalid checksum";
     Nip07Signer.getPublicKey := λ _, Ok (Str "pubkey");
     Nip07Signer.finishEvent := λ _ _, Ok Null |}.

(** [s'] differs from [s] at most by permission records removed, by
    the signing history and by the stored sign requests: the key is the
    same, the settings are the same, and no permission record was added
    or changed. *)
Definition narrows (s s' : Storage.local) : Prop :=
  Storage.postr_nsec s' = Storage.postr_nsec s
  ∧ Storage.postr_notification_settings s'
    = Storage.postr_notification_settings s
  ∧ Storage.postr_site_permissions s'
    `sublist_of` Storage.postr_site_permissions s.

(** The relay as [addRelay] makes it. *)
Definition added_relay (u : string) : Relays.Relay :=
  {| Relays.url := u; Relays.enabled := true; Relays.isDefault := false |}.

Definition urls (relays : list Relays.Relay) : list string :=
  map Relays.url relays.

(** A stand-in for the encryption functions: the conversation key of a
    recipient is the recipient itself, a ciphertext is the plaintext. *)
Definition sample_crypto : Encryption.CryptoTools :=
  {| Encryption.nip04_encrypt := λ _ _ plaintext, Ok plaintext;
     Encryption.nip04_decrypt := λ _ _ ciphertext, Ok ciphertext;
     Encryption.nip44_getConversationKey := λ _ pubkey, Ok pubkey;
     Encryption.nip44_encrypt := λ plaintext _, Ok plaintext;
     Encryption.nip44_decrypt := λ ciphertext _, Ok ciphertext |}.

(** What [nip17Encrypt] makes for one recipient. *)
Definition wrapped (crypto : Encryption.CryptoTools) (key plaintext : value)
    (recipient message : value) : Prop :=
  ∃ conversationKey ciphertext,
    Encryption.nip44_getConversationKey crypto key recipient
    = Ok conversationKey
    ∧ Encryption.nip44_encrypt crypto plaintext conversationKey
      = Ok ciphertext
    ∧ message = Obj [("pubkey", recipient); ("ciphertext", ciphertext)].

End Terms.

(** * Properties *)

(** ** The request validator *)

Section ValidatorFacts.
Import Js Nip07Signer Spec.

Lemma lt_Finite (x y : Q) : lt (Finite x) (Finite y) = true ↔ (x < y)%Q.
Proof.
  simpl. rewrite negb_true_iff. split.
  - intros H. apply Qnot_le_lt. intros Hle.
    apply Qle_bool_iff in Hle. congruence.
  - intros H. destruct (Qle_bool y x) eqn:E; [|done].
    apply Qle_bool_iff in E. exfalso. by eapply Qlt_not_le.
Qed.

Lemma range_check (now : Z) (n : number) :
  lt n (of_Z (now - oneHour)) || lt (of_Z (now + oneHour)) n = true
  ↔ out_of_range now n.
Proof.
  unfold of_Z, oneHour. destruct n as [q| | |].
  - rewrite orb_true_iff, !lt_Finite. done.
  - simpl. split; [discriminate|tauto].
  - simpl. tauto.
  - simpl. tauto.
Qed.

Lemma check_kind_elem (ev : value) (e : string) :
  e ∈ check_kind ev ↔ e = err_kind ∧ ¬ is_number (field ev "kind").
Proof.
  unfold check_kind, is_number.
  destruct (field ev "kind"); simpl; rewrite ?list_elem_of_singleton;
    try (split; [intros ->; split; [done|intros [? [=]]]|tauto]).
  split; [by intros ?%elem_of_nil|intros [_ []]; eauto].
Qed.

Lemma check_created_at_elem (date_now : Z) (ev : value) (e : string) :
  e ∈ check_created_at date_now ev ↔
    (e = err_created_at ∧ ¬ is_number (field ev "created_at")) ∨
    (e = err_range ∧ ∃ n, field ev "created_at" = Num n
                          ∧ out_of_range (now_seconds date_now) n).
Proof.
  unfold check_created_at, is_number.
  destruct (field ev "created_at") as [| | |n| | |];
    try (rewrite list_elem_of_singleton; split;
         [intros ->; left; split; [done|intros [? [=]]]
         |intros [[-> _]|[_ [? [[=] _]]]]; done]).
  pose proof (range_check (now_seconds date_now) n) as Hr.
  destruct (_ || _).
  - rewrite list_elem_of_singleton. split.
    + intros ->. right. split; [done|]. exists n. split; [done|]. by apply Hr.
    + intros [[_ []]|[-> _]]; eauto.
  - split; [by intros ?%elem_of_nil|].
    intros [[_ []]|[_ [n' [[= <-] Ho]]]]; [eauto|].
    apply Hr in Ho. discriminate.
Qed.

Lemma check_tags_elem (ev : value) (e : string) :
  e ∈ check_tags ev ↔ e = err_tags ∧ isArray (field ev "tags") = false.
Proof.
  unfold check_tags. destruct (isArray _); simpl.
  - split; [by intros ?%elem_of_nil|by intros [_ ?]].
  - rewrite list_elem_of_singleton. tauto.
Qed.

Lemma check_content_elem (ev : value) (e : string) :
  e ∈ check_content ev ↔ e = err_content ∧ ¬ is_string (field ev "content").
Proof.
  unfold check_content, is_string.
  destruct (field ev "content"); simpl; rewrite ?list_elem_of_singleton;
    try (split; [intros ->; split; [done|intros [? [=]]]|tauto]).
  split; [by intros ?%elem_of_nil|intros [_ []]; eauto].
Qed.

Lemma validateEvent_object (date_now : Z) (ev : value) :
  is_object ev = true →
  validateEvent date_now ev =
    check_kind ev ++ check_created_at date_now ev
    ++ check_tags ev ++ check_content ev.
Proof. by destruct ev. Qed.

Lemma validateEvent_not_object (date_now : Z) (ev : value) :
  is_object ev = false → validateEvent date_now ev = [err_not_object].
Proof.
  destruct ev as [| |b|n|s| |]; try done; intros _; unfold validateEvent.
  - by destruct b.
  - by rewrite orb_true_r.
  - by rewrite orb_true_r.
Qed.

Lemma validateEvent_elem (date_now : Z) (ev : value) (e : string) :
  is_object ev = true →
  e ∈ validateEvent date_now ev ↔
    (e = err_kind ∧ ¬ is_number (field ev "kind")) ∨
    (e = err_created_at ∧ ¬ is_number (field ev "created_at")) ∨
    (e = err_range ∧ ∃ n, field ev "created_at" = Num n
                          ∧ out_of_range (now_seconds date_now) n) ∨
    (e = err_tags ∧ isArray (field ev "tags") = false) ∨
    (e = err_content ∧ ¬ is_string (field ev "content")).
Proof.
  intros Hobj. rewrite validateEvent_object by done.
  rewrite !elem_of_app, check_kind_elem, check_created_at_elem,
    check_tags_elem, check_content_elem. tauto.
Qed.

End ValidatorFacts.

Section ValidatorClaims.
Import Js Nip07Signer Spec.

Lemma validateEvent_ordered (date_now : Z) (ev : value) :
  is_object ev = true →
  validateEvent date_now ev
    `sublist_of` [err_kind; err_created_at; err_range; err_tags; err_content].
Proof.
  intros Hobj. rewrite validateEvent_object by done.
  assert (check_kind ev = [] ∨ check_kind ev = [err_kind]) as [-> | ->]
    by (unfold check_kind; destruct (negb _); auto).
  all: assert (check_created_at date_now ev = []
            ∨ check_created_at date_now ev = [err_created_at]
            ∨ check_created_at date_now ev = [err_range]) as [-> | [-> | ->]]
    by (unfold check_created_at; destruct (field ev "created_at"); auto;
        destruct (_ || _); auto).
  all: assert (check_tags ev = [] ∨ check_tags ev = [err_tags]) as [-> | ->]
    by (unfold check_tags; destruct (negb _); auto).
  all: assert (check_content ev = [] ∨ check_content ev = [err_content])
    as [-> | ->] by (unfold check_content; destruct (negb _); auto).
  all: simpl; repeat first
    [apply sublist_nil | apply sublist_skip | apply sublist_cons].
Qed.

(** C8, as stated, fails: a [kind] and a [created_at] that are numbers but
    not integers draw no error; the event passes as valid. *)
Lemma validateEvent_accepts_fractions :
  field fractional_event "kind" = Num (Finite (3 # 2))
  ∧ is_integer (Finite (3 # 2)) = false
  ∧ field fractional_event "created_at" = Num (Finite (3400000001 # 2))
  ∧ is_integer (Finite (3400000001 # 2)) = false
  ∧ validateEvent 1700000000000 fractional_event = [].
Proof. repeat split; vm_compute; reflexivity. Qed.

(** C8, amended: [validateEvent] is a function of the event and the clock
    alone. An event that is not an object (arrays count as objects) gets
    the single error [err_not_object]. For an object the four checks are
    independent of each other: [kind] draws an error exactly when it is
    not of type number; [created_at] draws a first error exactly when it
    is not of type number, and another exactly when it is a number more
    than 3600 seconds before or after the clock in seconds (NaN draws
    none); [tags] exactly when it is not an array; [content] exactly when
    it is not a string. The errors come in this order, each at most once,
    and the result is empty exactly when no check fails. *)
Theorem validateEvent_checks (date_now : Z) (ev : value) :
  if is_object ev then
    let errors := validateEvent date_now ev in
    (err_kind ∈ errors ↔ ¬ is_number (field ev "kind"))
    ∧ (err_created_at ∈ errors ↔ ¬ is_number (field ev "created_at"))
    ∧ (err_range ∈ errors ↔
         ∃ n, field ev "created_at" = Num n
              ∧ out_of_range (now_seconds date_now) n)
    ∧ (err_tags ∈ errors ↔ isArray (field ev "tags") = false)
    ∧ (err_content ∈ errors ↔ ¬ is_string (field ev "content"))
    ∧ errors `sublist_of`
        [err_kind; err_created_at; err_range; err_tags; err_content]
    ∧ (errors = [] ↔
         is_number (field ev "kind")
         ∧ (∃ n, field ev "created_at" = Num n
                 ∧ ¬ out_of_range (now_seconds date_now) n)
         ∧ isArray (field ev "tags") = true
         ∧ is_string (field ev "content"))
  else validateEvent date_now ev = [err_not_object].
Proof.
  destruct (is_object ev) eqn:Hobj; [|by apply validateEvent_not_object].
  pose proof (validateEvent_elem date_now ev) as Helem.
  assert (∀ e, e ∈ validateEvent date_now ev ↔ _) as H
    by (intros e; apply (Helem e Hobj)).
  clear Helem. cbv zeta.
  split; [|split; [|split; [|split; [|split; [|split]]]]].
  - rewrite H. split; [|auto]. intros [[_ ?]|[[? _]|[[? _]|[[? _]|[? _]]]]]; done.
  - rewrite H. split; [|auto]. intros [[? _]|[[_ ?]|[[? _]|[[? _]|[? _]]]]]; done.
  - rewrite H. split; [|auto 6]. intros [[? _]|[[? _]|[[_ ?]|[[? _]|[? _]]]]]; done.
  - rewrite H. split; [|auto 6]. intros [[? _]|[[? _]|[[? _]|[[_ ?]|[? _]]]]]; done.
  - rewrite H. split; [|auto 8]. intros [[? _]|[[? _]|[[? _]|[[? _]|[_ ?]]]]]; done.
  - by apply validateEvent_ordered.
  - split.
    + intros Hnil.
      assert (∀ e, e ∉ validateEvent date_now ev) as Hno
        by (intros e; rewrite Hnil; apply not_elem_of_nil).
      assert (is_number (field ev "created_at")) as [n Hn].
      { destruct (field ev "created_at") eqn:E; try (by eexists);
          exfalso; apply (Hno err_created_at), H; right; left;
          (split; [done|intros [? [=]]]). }
      split; [|split; [|split]].
      * destruct (field ev "kind") eqn:E; try (by eexists);
          exfalso; apply (Hno err_kind), H; left;
          (split; [done|intros [? [=]]]).
      * exists n. split; [done|]. intros Ho.
        apply (Hno err_range), H. right; right; left. eauto.
      * destruct (isArray _) eqn:E; [done|].
        exfalso. apply (Hno err_tags), H. auto 6.
      * destruct (field ev "content") eqn:E; try (by eexists);
          exfalso; apply (Hno err_content), H; do 4 right;
          (split; [done|intros [? [=]]]).
    + intros (Hk & (n & Hn & Hr) & Ht & Hc).
      destruct (validateEvent date_now ev) as [|e errors] eqn:E; [done|].
      exfalso.
      assert (e ∈ e :: errors) as He by apply list_elem_of_here.
      apply H in He as [[_ ?]|[[_ Hx]|[[_ (n' & Hn' & Hr')]|[[_ ?]|[_ ?]]]]];
        try done; try congruence.
      apply Hx. by exists n.
Qed.

End ValidatorClaims.

(** ** The permission store *)

Section StorageFacts.
Import Js Storage Spec.

Lemma find_head_filter {A} (f : A → bool) (l : list A) :
  List.find f l = head (List.filter f l).
Proof. induction l as [|x l IH]; simpl; [done|]. by destruct (f x). Qed.

Lemma find_record_for (d : string) (s : local) :
  List.find (λ p, String.eqb (domain p) d) (getSitePermissions s)
  = record_for d s.
Proof. apply find_head_filter. Qed.

Lemma filter_other_same (d : string) (perms : list Permission) :
  List.filter (λ p, String.eqb (domain p) d)
    (List.filter (other_domain d) perms) = [].
Proof.
  induction perms as [|p perms IH]; simpl; [done|].
  unfold other_domain at 1.
  destruct (String.eqb (domain p) d) eqn:E; simpl; [done|]. by rewrite E.
Qed.

Lemma filter_other_other (d d' : string) (perms : list Permission) :
  d' ≠ d →
  List.filter (λ p, String.eqb (domain p) d')
    (List.filter (other_domain d) perms)
  = List.filter (λ p, String.eqb (domain p) d') perms.
Proof.
  intros Hne. induction perms as [|p perms IH]; simpl; [done|].
  unfold other_domain at 1.
  destruct (String.eqb (domain p) d) eqn:E; simpl.
  - apply String.eqb_eq in E. subst d.
    destruct (String.eqb (domain p) d') eqn:E'; [|done].
    apply String.eqb_eq in E'. congruence.
  - by rewrite IH.
Qed.

Lemma filter_other_absent (d : string) (perms : list Permission) :
  List.filter (λ p, String.eqb (domain p) d) perms = [] →
  List.filter (other_domain d) perms = perms.
Proof.
  induction perms as [|p perms IH]; simpl; [done|].
  unfold other_domain at 1.
  destruct (String.eqb (domain p) d); simpl; [done|].
  intros H. by rewrite IH.
Qed.

Lemma with_permissions_same (s : local) :
  with_permissions (postr_site_permissions s) s = s.
Proof. by destruct s. Qed.

Lemma permissions_for_remove (d : string) (s : local) :
  permissions_for d (removeSitePermission d s) = [].
Proof. apply filter_other_same. Qed.

Lemma permissions_for_remove_other (d d' : string) (s : local) :
  d' ≠ d →
  permissions_for d' (removeSitePermission d s) = permissions_for d' s.
Proof. apply filter_other_other. Qed.

Lemma remove_absent (d : string) (s : local) :
  permissions_for d s = [] → removeSitePermission d s = s.
Proof.
  intros H. unfold removeSitePermission, setSitePermissions, getSitePermissions.
  rewrite filter_other_absent by done. apply with_permissions_same.
Qed.

Lemma remove_remove (d : string) (s : local) :
  removeSitePermission d (removeSitePermission d s) = removeSitePermission d s.
Proof. apply remove_absent, permissions_for_remove. Qed.

Lemma permissions_for_add (date_now : Z) (d : string) (ty : value)
    (dur : string) (expires : option Z) (s : local) :
  permissions_for d (addSitePermission date_now d ty dur expires s)
  = [{| domain := d; type := ty; duration := dur; expiresAt := expires;
        addedAt := date_now |}].
Proof.
  unfold permissions_for, addSitePermission; simpl.
  rewrite List.filter_app, filter_other_same. simpl.
  by rewrite String.eqb_refl.
Qed.

Lemma permissions_for_add_other (date_now : Z) (d d' : string) (ty : value)
    (dur : string) (expires : option Z) (s : local) :
  d' ≠ d →
  permissions_for d' (addSitePermission date_now d ty dur expires s)
  = permissions_for d' s.
Proof.
  intros Hne. unfold permissions_for, addSitePermission; simpl.
  rewrite List.filter_app, filter_other_other by done. simpl.
  destruct (String.eqb d d') eqn:E; [|by rewrite app_nil_r].
  apply String.eqb_eq in E. congruence.
Qed.

Lemma permissions_for_perform (c : call) (d : string) (s : local) :
  permissions_for d (perform s c)
  = if String.eqb (target c) d then written_by c else permissions_for d s.
Proof.
  destruct (String.eqb (target c) d) eqn:E.
  - apply String.eqb_eq in E. subst d. destruct c; simpl.
    + apply permissions_for_add.
    + apply permissions_for_remove.
  - apply String.eqb_neq in E. destruct c; simpl in *.
    + by apply permissions_for_add_other.
    + by apply permissions_for_remove_other.
Qed.

Lemma permissions_for_perform_all (calls : list call) (d : string) (s : local) :
  permissions_for d (perform_all calls s)
  = match last (calls_for d calls) with
    | Some c => written_by c
    | None => permissions_for d s
    end.
Proof.
  induction calls as [|c calls IH] using rev_ind; [done|].
  unfold perform_all, calls_for in *.
  rewrite foldl_app, List.filter_app. simpl.
  rewrite permissions_for_perform.
  destruct (String.eqb (target c) d).
  - by rewrite last_snoc.
  - by rewrite app_nil_r.
Qed.

Lemma written_by_length (c : call) : (length (written_by c) ≤ 1)%nat.
Proof. destruct c; simpl; lia. Qed.

(** What [getSiteStatus] does, by the record the lookup finds. *)
Lemma getSiteStatus_absent (date_now : Z) (d : string) (s : local) :
  record_for d s = None → getSiteStatus date_now d s = (unknown, s).
Proof. intros H. unfold getSiteStatus. by rewrite find_record_for, H. Qed.

Lemma getSiteStatus_expired (date_now : Z) (d : string) (s : local)
    (p : Permission) :
  record_for d s = Some p → expired date_now p = true →
  getSiteStatus date_now d s = (unknown, removeSitePermission d s).
Proof.
  intros H He. unfold getSiteStatus. by rewrite find_record_for, H, He.
Qed.

Lemma getSiteStatus_no_type (date_now : Z) (d : string) (s : local)
    (p : Permission) :
  record_for d s = Some p → truthy (type p) = false →
  getSiteStatus date_now d s = (unknown, removeSitePermission d s).
Proof.
  intros H Ht. unfold getSiteStatus. rewrite find_record_for, H, Ht.
  by destruct (expired date_now p).
Qed.

Lemma getSiteStatus_decision (date_now : Z) (d : string) (s : local)
    (p : Permission) :
  record_for d s = Some p → expired date_now p = false →
  truthy (type p) = true →
  getSiteStatus date_now d s
  = (if is_str (type p) "deny" then denied else allowed, s).
Proof.
  intros H He Ht. unfold getSiteStatus. rewrite find_record_for, H, He, Ht.
  simpl. by destruct (is_str _ _).
Qed.

Lemma unexpired_not_expired (date_now : Z) (p : Permission) :
  unexpired date_now p → expired date_now p = false.
Proof.
  unfold unexpired, expired. destruct (expiresAt p) as [e|]; [|done].
  intros H. apply andb_false_iff. right. lia.
Qed.

Lemma is_str_spec (v : value) (s : string) : is_str v s = true ↔ v = Str s.
Proof.
  destruct v; simpl; try (split; [discriminate|congruence]).
  rewrite String.eqb_eq. split; congruence.
Qed.

(** The permission list is the only part of the storage that
    [getSiteStatus] may change. *)
Lemma getSiteStatus_storage (date_now : Z) (d : string) (s : local) :
  ∃ perms, (getSiteStatus date_now d s).2 = with_permissions perms s.
Proof.
  unfold getSiteStatus.
  destruct (List.find _ _) as [p|]; simpl;
    [|exists (postr_site_permissions s); by rewrite with_permissions_same].
  repeat match goal with
         | |- context [if ?b then _ else _] => destruct b
         end; simpl;
    solve [ eexists; reflexivity
          | exists (postr_site_permissions s); by rewrite with_permissions_same ].
Qed.

End StorageFacts.

Section StorageClaims.
Import Js Storage Spec.

(** C4, as stated, fails: a record whose [expiresAt] is 0, a time before
    the clock, is not purged but honoured as a decision; and a record
    that has a [type] field holding the empty string is purged, not
    mapped to a decision. *)
Lemma getSiteStatus_zero_expiry_empty_type :
  let zero := record_of (Str "allow") (Some 0) in
  let empty := record_of (Str EmptyString) None in
  (record_for sample_site (store_of None [zero]) = Some zero
   ∧ expiresAt zero = Some 0 ∧ 0 < sample_now
   ∧ getSiteStatus sample_now sample_site (store_of None [zero])
     = (allowed, store_of None [zero]))
  ∧ (record_for sample_site (store_of None [empty]) = Some empty
     ∧ type empty = Str EmptyString ∧ unexpired sample_now empty
     ∧ getSiteStatus sample_now sample_site (store_of None [empty])
       = (unknown, store_of None [])).
Proof. cbv zeta. repeat split; vm_compute; congruence. Qed.

(** C4, amended: [getSiteStatus] returns unknown and leaves the store as
    it is when no record is stored for the domain. For the record the
    lookup finds (the first stored for the domain): when its [expiresAt]
    is a non-zero time before the clock, or when its [type] is missing or
    falsy, the result is unknown and afterwards no record is stored for
    the domain, the records of other domains being untouched; otherwise
    the store is not modified and the result is denied for the type
    ['deny'] and allowed for any other. *)
Theorem getSiteStatus_read (date_now : Z) (d : string) (s : local) :
  match record_for d s with
  | None => getSiteStatus date_now d s = (unknown, s)
  | Some p =>
      let purged :=
        (getSiteStatus date_now d s).1 = unknown
        ∧ permissions_for d (getSiteStatus date_now d s).2 = []
        ∧ ∀ d', d' ≠ d →
            permissions_for d' (getSiteStatus date_now d s).2
            = permissions_for d' s in
      let past := ∃ e, expiresAt p = Some e ∧ e ≠ 0 ∧ e < date_now in
      (past → purged)
      ∧ (truthy (type p) = false → purged)
      ∧ (type p = Undefined → purged)
      ∧ (¬ past → truthy (type p) = true →
           (getSiteStatus date_now d s).2 = s
           ∧ (type p = Str "deny" → (getSiteStatus date_now d s).1 = denied)
           ∧ (type p ≠ Str "deny" → (getSiteStatus date_now d s).1 = allowed))
  end.
Proof.
  destruct (record_for d s) as [p|] eqn:Hrec;
    [|by apply getSiteStatus_absent].
  cbv zeta.
  assert ((∃ e, expiresAt p = Some e ∧ e ≠ 0 ∧ e < date_now)
          ↔ expired date_now p = true) as Hpast.
  { unfold expired. destruct (expiresAt p) as [e|].
    - rewrite andb_true_iff, negb_true_iff, Z.eqb_neq, Z.ltb_lt.
      split; [intros (? & [= <-] & ? & ?); done|intros [? ?]; eauto].
    - split; [intros (? & [=] & _)|discriminate]. }
  assert (∀ s', getSiteStatus date_now d s = (unknown, removeSitePermission d s')
                → s' = s →
                (getSiteStatus date_now d s).1 = unknown
                ∧ permissions_for d (getSiteStatus date_now d s).2 = []
                ∧ ∀ d', d' ≠ d →
                    permissions_for d' (getSiteStatus date_now d s).2
                    = permissions_for d' s) as Hpurged.
  { intros s' -> ->. simpl. split; [done|]. split.
    - apply permissions_for_remove.
    - intros d' Hd'. by apply permissions_for_remove_other. }
  assert (truthy (type p) = false →
          getSiteStatus date_now d s = (unknown, removeSitePermission d s))
    as Hfalsy by (intros ?; by eapply getSiteStatus_no_type).
  split; [|split; [|split]].
  - intros Hp%Hpast. eapply Hpurged; [|done].
    by eapply getSiteStatus_expired.
  - intros Ht. eapply Hpurged; [|done]. by apply Hfalsy.
  - intros Ht. eapply Hpurged; [|done]. apply Hfalsy. by rewrite Ht.
  - intros Hnp Ht.
    assert (expired date_now p = false) as He.
    { destruct (expired date_now p) eqn:E; [|done].
      exfalso. by apply Hnp, Hpast. }
    rewrite (getSiteStatus_decision date_now d s p) by done. simpl.
    split; [done|]. split.
    + intros ->. done.
    + intros Hne. destruct (is_str (type p) "deny") eqn:E; [|done].
      apply is_str_spec in E. done.
Qed.

(** C10: a record that is present, not expired and has a truthy [type]
    is honoured as a decision and the store is left alone: the type
    ['deny'] gives denied, every other truthy type gives allowed. *)
Theorem getSiteStatus_truthy_type (date_now : Z) (d : string) (s : local)
    (p : Permission) :
  record_for d s = Some p →
  unexpired date_now p →
  truthy (type p) = true →
  (type p = Str "deny" → getSiteStatus date_now d s = (denied, s))
  ∧ (type p ≠ Str "deny" → getSiteStatus date_now d s = (allowed, s)).
Proof.
  intros Hrec He%unexpired_not_expired Ht.
  rewrite (getSiteStatus_decision date_now d s p) by done.
  split.
  - by intros ->.
  - intros Hne. destruct (is_str (type p) "deny") eqn:E; [|done].
    apply is_str_spec in E. done.
Qed.

(** A record of the unrecognised type ['block'] that expires in a minute
    is read as allowed. *)
Lemma getSiteStatus_truthy_type_witness :
  getSiteStatus sample_now sample_site
    (store_of None [record_of (Str "block") (Some (sample_now + 60000))])
  = (allowed,
     store_of None [record_of (Str "block") (Some (sample_now + 60000))]).
Proof.
  refine (proj2 (getSiteStatus_truthy_type sample_now sample_site
                   (store_of None
                      [record_of (Str "block") (Some (sample_now + 60000))])
                   (record_of (Str "block") (Some (sample_now + 60000)))
                   eq_refl _ eq_refl) _).
  - unfold unexpired, sample_now. simpl. lia.
  - discriminate.
Defined.

(** C7: after any sequence of upserts and revokes, what is stored for a
    domain is what the last call for that domain wrote: the one record of
    the last upsert, nothing after a revoke, and what was stored before if
    no call was for the domain. So one call for a domain is enough to
    leave at most one record for it, and a store with at most one record
    for the domain keeps that. A revoke always returns a store; doing it
    twice is doing it once, and with no record stored for the domain it
    changes nothing. *)
Theorem single_record_per_domain (calls : list call) (d : string)
    (s : local) :
  permissions_for d (perform_all calls s)
    = match last (calls_for d calls) with
      | Some c => written_by c
      | None => permissions_for d s
      end
  ∧ (calls_for d calls ≠ [] ∨ (length (permissions_for d s) ≤ 1)%nat →
       (length (permissions_for d (perform_all calls s)) ≤ 1)%nat)
  ∧ removeSitePermission d (removeSitePermission d s)
    = removeSitePermission d s
  ∧ (permissions_for d s = [] → removeSitePermission d s = s).
Proof.
  split; [apply permissions_for_perform_all|].
  split; [|split; [apply remove_remove|apply remove_absent]].
  rewrite permissions_for_perform_all.
  destruct (last (calls_for d calls)) as [c|] eqn:E.
  - intros _. apply written_by_length.
  - apply last_None in E. intros [?|?]; done.
Qed.

End StorageClaims.

(** ** The signing gateway *)

Section GatewayFacts.
Import Js Storage Spec Background.
Variable tools : Nip07Signer.NostrTools.

Lemma with_storage_same (g : state) : with_storage (storage g) g = g.
Proof. by destruct g. Qed.

Lemma length_pos_nonempty {A} (l : list A) :
  (0 <? length l)%nat = true ↔ l ≠ [].
Proof. destruct l; simpl; split; done. Qed.

Lemma sign_event_logged_out (date_now : Z) (d : string) (o : option string)
    (ev : value) (ch : channel) (g : state) :
  isLoggedIn (storage g) = false →
  handle_sign_event tools date_now d o ev ch g
  = (g, [SendResponse ch (Error not_logged_in)]).
Proof. intros H. unfold handle_sign_event. by rewrite H. Qed.

Lemma sign_event_malformed (date_now : Z) (d : string) (o : option string)
    (ev : value) (ch : channel) (g : state) :
  isLoggedIn (storage g) = true →
  Nip07Signer.validateEvent date_now ev ≠ [] →
  handle_sign_event tools date_now d o ev ch g
  = (g, [SendResponse ch
           (Error ("Malformed event: "
                   +:+ join ", " (Nip07Signer.validateEvent date_now ev)))]).
Proof.
  intros H Hv%length_pos_nonempty. unfold handle_sign_event.
  by rewrite H, Hv.
Qed.

Lemma sign_event_denied (date_now : Z) (d : string) (o : option string)
    (ev : value) (ch : channel) (g : state) (p : Permission) :
  isLoggedIn (storage g) = true →
  Nip07Signer.validateEvent date_now ev = [] →
  record_for d (storage g) = Some p →
  unexpired date_now p →
  type p = Str "deny" →
  handle_sign_event tools date_now d o ev ch g
  = (g, [SendResponse ch (Error "User rejected")]).
Proof.
  intros H Hv Hrec He Ht. unfold handle_sign_event.
  rewrite H, Hv. simpl.
  rewrite (getSiteStatus_decision date_now d (storage g) p), Ht;
    [|done|by apply unexpired_not_expired|by rewrite Ht].
  simpl. by rewrite with_storage_same.
Qed.

Lemma dialog_response_unmatched (date_now : Z) (requestId : option string)
    (approved : bool) (error : option string) (ch : channel) (g : state) :
  (∀ id, requestId = Some id → pendingRequests g !! id = None) →
  handle_dialog_response tools date_now requestId approved error ch g
  = (g, [SendResponse ch Acknowledge]).
Proof.
  intros H. unfold handle_dialog_response.
  destruct requestId as [id|]; simpl; [|done].
  by rewrite (H id eq_refl).
Qed.

(** The dialog of a request loads what the gateway stored for it. *)
Lemma dialog_loads_request (date_now : Z) (d : string) (o : option string)
    (ev : value) (ch : channel) (g : state) :
  SignDialog.load (Some (pretty date_now))
    (storage (open_dialog date_now d o ev ch g).1)
  = Some {| SignDialog.requestId := Some (pretty date_now);
            SignDialog.eventData := ev;
            SignDialog.domain := d;
            SignDialog.origin := o |}.
Proof.
  unfold SignDialog.load, open_dialog, set_sign_request. simpl.
  by rewrite lookup_insert_eq.
Qed.

(** The history write changes nothing but the history. *)
Lemma record_history_storage (date_now : Z) (d : string) (ev signed : value)
    (s s' : local) :
  record_history date_now d ev signed s = Ok s' →
  ∃ h, s' = with_history h s.
Proof.
  unfold record_history, mbind, result_bind.
  repeat case_match; intros; simplify_eq/=.
  - eexists. reflexivity.
  - exists (postr_signing_history s'). by destruct s'.
Qed.

(** What the handler does with a response that matches a pending
    request. *)
Lemma dialog_response_matched (date_now : Z) (id : string) (approved : bool)
    (error : option string) (ch : channel) (g : state) (p : PendingRequest) :
  pendingRequests g !! id = Some p →
  let '(g', effects) :=
    handle_dialog_response tools date_now (Some id) approved error ch g in
  pendingRequests g' = delete id (pendingRequests g)
  ∧ dialogWindows g' = untrack (Some id) (dialogWindows g)
  ∧ sign_requests (storage g')
    = delete (sign_request_key id) (sign_requests (storage g))
  ∧ postr_site_permissions (storage g') = postr_site_permissions (storage g)
  ∧ if approved
    then ∃ r, effects = [SignEventCall (event p);
                         SendResponse (resolve p) r;
                         SendResponse ch Acknowledge]
    else effects = [SendResponse (resolve p)
                      (Error (or_else error "User rejected"));
                    SendResponse ch Acknowledge].
Proof.
  intros Hp. unfold handle_dialog_response. simpl. rewrite Hp. simpl.
  destruct approved; [|done].
  destruct (Nip07Signer.signEvent tools _ (event p)) as [signed|m]; simpl;
    [|by eauto 6].
  destruct (record_history date_now (domain p) (event p) signed _)
    as [s'|m] eqn:E; simpl; [|by eauto 6].
  apply record_history_storage in E as [h ->]. simpl. eauto 6.
Qed.

(** The dialog-response handler leaves the permission list alone. *)
Lemma dialog_response_permissions (date_now : Z) (requestId : option string)
    (approved : bool) (error : option string) (ch : channel) (g : state) :
  postr_site_permissions
    (storage (handle_dialog_response tools date_now requestId approved error
                ch g).1)
  = postr_site_permissions (storage g).
Proof.
  destruct requestId as [id|]; [|done].
  destruct (pendingRequests g !! id) as [p|] eqn:Hp.
  - pose proof (dialog_response_matched date_now id approved error ch g p Hp)
      as Hm.
    destruct (handle_dialog_response _ _ _ _ _ _ _) as [g' effects].
    by destruct Hm as (_ & _ & _ & ? & _).
  - rewrite dialog_response_unmatched; [done|].
    by intros ? [= <-].
Qed.

(** *** The dialog-window tracker *)

Lemma map_get_elem (w : Z) (rid : string) (m : list (Z * string)) :
  map_get w m = Some rid → (w, rid) ∈ m.
Proof.
  induction m as [|[w' r'] m IH]; simpl; [done|].
  case_decide as E.
  - intros [= ->]. subst. apply list_elem_of_here.
  - intros H. apply list_elem_of_further. auto.
Qed.

Lemma map_get_delete (w : Z) (m : list (Z * string)) :
  map_get w (map_delete w m) = None.
Proof.
  unfold map_delete. induction m as [|[w' r'] m IH]; simpl; [done|].
  case_bool_decide as E; simpl; [done|].
  by rewrite decide_False.
Qed.

Lemma map_get_delete_ne (w w' : Z) (m : list (Z * string)) :
  w' ≠ w → map_get w' (map_delete w m) = map_get w' m.
Proof.
  intros Hne. unfold map_delete.
  induction m as [|[w'' r'] m IH]; simpl; [done|].
  case_bool_decide as E; simpl in *.
  - subst. by rewrite decide_False.
  - by rewrite IH.
Qed.

Lemma Forall_map_set (P : Z * string → Prop) (w : Z) (rid : string)
    (m : list (Z * string)) :
  P (w, rid) → Forall P m → Forall P (map_set w rid m).
Proof.
  intros Hp. induction 1 as [|[w' r'] m Hx Hm IH]; simpl.
  - by constructor.
  - case_decide; constructor; auto.
Qed.

Lemma Forall_map_delete (P : Z * string → Prop) (w : Z)
    (m : list (Z * string)) :
  Forall P m → Forall P (map_delete w m).
Proof.
  unfold map_delete. induction 1 as [|[w' r'] m Hx Hm IH]; simpl; [done|].
  destruct (negb _); [constructor|]; auto.
Qed.

Lemma Forall_untrack (P : Z * string → Prop) (requestId : option string)
    (m : list (Z * string)) :
  Forall P m → Forall P (untrack requestId m).
Proof.
  induction 1 as [|[w' r'] m Hx Hm IH]; simpl; [done|].
  case_decide; [|constructor]; auto.
Qed.

(** What a message can do to the tracker: nothing, or the clean-up of the
    dialog-response handler. *)
Lemma onMessage_windows (date_now : Z) (req : request) (sender : tab)
    (ch : channel) (g : state) :
  dialogWindows (onMessage tools date_now req sender ch g).1 = dialogWindows g
  ∨ ∃ requestId,
      dialogWindows (onMessage tools date_now req sender ch g).1
      = untrack requestId (dialogWindows g).
Proof.
  unfold onMessage, handle_get_public_key, handle_sign_event,
    handle_dialog_response, auto_sign, open_dialog.
  destruct (resolve_site req sender) as [d o].
  destruct (body req) as [|ev|requestId approved error|].
  - repeat case_match; auto.
  - destruct (getSiteStatus date_now d (storage g)) as [st s'].
    repeat case_match; simplify_eq/=; auto.
  - repeat case_match; simplify_eq/=; eauto.
  - auto.
Qed.

Lemma pretty_N_go_nonempty (x : N) (s : string) :
  s ≠ EmptyString → pretty_N_go x s ≠ EmptyString.
Proof.
  revert s. induction (N.lt_wf_0 x) as [x _ IH]; intros s Hs.
  destruct (decide (x = 0)%N) as [->|Hx]; [by rewrite pretty_N_go_0|].
  rewrite pretty_N_go_step by lia.
  apply IH; [apply N.div_lt; lia|done].
Qed.

(** The decimal rendering of a clock reading is never the empty string. *)
Lemma pretty_Z_nonempty (z : Z) : pretty z ≠ EmptyString.
Proof.
  assert (∀ p : positive, pretty p ≠ EmptyString) as Hpos.
  { intros p. unfold pretty, pretty_positive, pretty, pretty_N.
    rewrite decide_False by done.
    rewrite pretty_N_go_step by lia. by apply pretty_N_go_nonempty. }
  destruct z as [|p|p]; unfold pretty, pretty_Z; [done|apply Hpos|done].
Qed.

(** Every request id in the tracker is a non-empty string. *)
Lemma reachable_tracked (g : state) :
  reachable tools g →
  Forall (λ wr, wr.2 ≠ EmptyString) (dialogWindows g).
Proof.
  induction 1 as [s|g date_now req sender ch _ IH|g win date_now _ IH
                  |g w _ IH|g s _ IH]; simpl.
  - constructor.
  - destruct (onMessage_windows date_now req sender ch g) as [->|[r ->]];
      [done|by apply Forall_untrack].
  - destruct win as [id|]; simpl; [|done].
    apply Forall_map_set; [apply pretty_Z_nonempty|done].
  - unfold onRemoved. repeat case_match; simpl; try done;
      by apply Forall_map_delete.
  - done.
Qed.

End GatewayFacts.

(** ** Resolvers *)

Section ResolverFacts.
Import Js Storage Spec Background.
Variable tools : Nip07Signer.NostrTools.

Ltac solve_elem :=
  repeat match goal with
         | H : context [_ ∈ _ ++ _] |- _ => rewrite elem_of_app in H
         | H : context [_ ∈ [_]] |- _ => rewrite list_elem_of_singleton in H
         | H : context [_ ∈ _ :: _] |- _ => rewrite elem_of_cons in H
         end;
  rewrite ?elem_of_app, ?elem_of_cons, ?list_elem_of_singleton;
  first [tauto | intuition congruence].

Lemma replies_occurrences (ch : channel) (effects : list effect) :
  replies ch effects = occurrences ch (reply_channels effects).
Proof.
  unfold replies, occurrences, reply_channels.
  induction effects as [|[c r|ev|rid|ti m] effects IH]; simpl; auto.
  destruct (Nat.eqb c ch); simpl; auto.
Qed.

Lemma replies_app (ch : channel) (e1 e2 : list effect) :
  replies ch (e1 ++ e2) = (replies ch e1 + replies ch e2)%nat.
Proof. unfold replies. by rewrite List.filter_app, length_app. Qed.

Lemma occurrences_cons (ch c : channel) (l : list channel) :
  occurrences ch (c :: l)
  = ((if decide (c = ch) then 1 else 0) + occurrences ch l)%nat.
Proof.
  unfold occurrences. simpl.
  destruct (Nat.eqb_spec c ch); case_decide; simpl; congruence.
Qed.

Lemma step_outcome (date_now : Z) (i : input) (g : state) :
  outcome i g (step tools date_now i g).1 (step tools date_now i g).2.
Proof.
  destruct i as [req sender ch|win rid|w]; simpl.
  - unfold onMessage. destruct (resolve_site req sender) as [d o].
    destruct (body req) as [|ev|requestId approved error|].
    + unfold handle_get_public_key.
      repeat case_match; by eapply outcome_reply.
    + unfold handle_sign_event.
      destruct (negb (isLoggedIn (storage g))); [by eapply outcome_reply|].
      destruct (0 <? _)%nat; [by eapply outcome_reply|].
      destruct (getSiteStatus date_now d (storage g)) as [[| |] s']; simpl.
      * unfold auto_sign.
        repeat case_match; by eapply outcome_reply.
      * by apply (outcome_reply _ _ _ _ ch).
      * by apply (outcome_pending _ _ _ _ ch (pretty date_now)
                    {| resolve := ch; event := ev; domain := d;
                       origin := o |}).
    + destruct requestId as [id|];
        [|rewrite dialog_response_unmatched by done; by eapply outcome_reply].
      destruct (pendingRequests g !! id) as [p|] eqn:Hp.
      * pose proof (dialog_response_matched tools date_now id approved error
                      ch g p Hp) as Hm.
        destruct (handle_dialog_response tools date_now (Some id) approved
                    error ch g) as [g' effects].
        destruct Hm as (Hpend & _ & _ & _ & Heff). simpl.
        eapply (outcome_resolved _ _ _ _ ch id p); [done..|].
        destruct approved; [destruct Heff as [r ->]|rewrite Heff]; done.
      * rewrite dialog_response_unmatched by (by intros ? [= <-]).
        by eapply outcome_reply.
    + by eapply outcome_reply.
  - destruct win; by apply outcome_quiet.
  - unfold onRemoved.
    destruct (map_get w (dialogWindows g)) as [rid|];
      [|by apply outcome_quiet].
    destruct (String.eqb rid EmptyString); [by apply outcome_quiet|].
    destruct (pendingRequests g !! rid) as [p|] eqn:Hp.
    + by eapply (outcome_abandoned _ _ _ _ rid p).
    + by apply outcome_quiet.
Qed.

Lemma resolvers_ok_loaded (s : local) : resolvers_ok [] (loaded s) [].
Proof.
  split; simpl.
  - intros requestId p. by rewrite lookup_empty.
  - intros id1 id2 p1 p2. by rewrite lookup_empty.
  - intros ch. unfold replies. simpl. lia.
  - done.
Qed.

Lemma occurrences_nil (ch : channel) : occurrences ch [] = 0%nat.
Proof. done. Qed.

Lemma resolvers_ok_step (used : list channel) (g : state)
    (effects : list effect) (date_now : Z) (i : input) :
  resolvers_ok used g effects →
  (∀ ch, channel_of i = Some ch → ch ∉ used) →
  resolvers_ok (used ++ option_list (channel_of i))
    (step tools date_now i g).1 (effects ++ (step tools date_now i g).2).
Proof.
  intros [Hsilent Hdistinct Honce Hunused] Hfresh.
  pose proof (step_outcome date_now i g) as Hout.
  destruct (step tools date_now i g) as [g' e]. simpl in *.
  assert (∀ ch, replies ch (effects ++ e)
                = (replies ch effects + occurrences ch (reply_channels e))%nat)
    as Hrep by (intros c; by rewrite replies_app, (replies_occurrences c e)).
  destruct Hout as [Hc Hp He|ch Hc Hp He|ch rid p Hc Hres Hp He
                    |ch rid p Hc Hlook Hp He|rid p Hc Hlook Hp He];
    rewrite Hc; simpl; rewrite ?app_nil_r;
    try (specialize (Hfresh ch Hc));
    (split; [intros rid' p'|intros id1 id2 p1 p2|intros c|intros c Hnot]);
    rewrite ?Hrep, ?He, ?Hp, ?occurrences_cons, ?occurrences_nil,
      ?Nat.add_0_r.
  - apply Hsilent.
  - apply Hdistinct.
  - apply Honce.
  - by apply Hunused.
  - intros Hl. pose proof (Hsilent rid' p' Hl) as [H0 Hin].
    rewrite decide_False by (intros ->; done).
    split; [by rewrite H0|solve_elem].
  - apply Hdistinct.
  - case_decide; subst; [rewrite Hunused by done; lia|].
    rewrite Nat.add_0_r. apply Honce.
  - rewrite decide_False by solve_elem.
    rewrite Nat.add_0_r. apply Hunused. solve_elem.
  - rewrite lookup_insert. case_decide.
    + intros [= <-]. subst. split; [by apply Hunused|solve_elem].
    + intros Hl. pose proof (Hsilent rid' p' Hl) as [H0 Hin].
      split; [done|solve_elem].
  - rewrite !lookup_insert.
    repeat case_decide; subst; try done.
    + intros [= <-] Hl Heq. pose proof (Hsilent id2 p2 Hl) as [_ Hin].
      by rewrite <-Heq in Hin.
    + intros Hl [= <-] Heq. pose proof (Hsilent id1 p1 Hl) as [_ Hin].
      by rewrite Heq in Hin.
    + apply Hdistinct.
  - apply Honce.
  - apply Hunused. solve_elem.
  - pose proof (Hsilent rid p Hlook) as [Hp0 Hpin].
    rewrite lookup_delete. case_decide; [done|].
    intros Hl. pose proof (Hsilent rid' p' Hl) as [H0 Hin].
    rewrite !decide_False.
    + split; [by rewrite H0|solve_elem].
    + intros ->. done.
    + intros Heq. by apply (Hdistinct rid rid' p p') in Heq.
  - rewrite !lookup_delete.
    repeat case_decide; try done. apply Hdistinct.
  - pose proof (Hsilent rid p Hlook) as [Hp0 Hpin].
    repeat case_decide; subst; try done.
    + rewrite Hp0. lia.
    + rewrite Hunused by done. lia.
    + rewrite !Nat.add_0_r. apply Honce.
  - pose proof (Hsilent rid p Hlook) as [Hp0 Hpin].
    rewrite !decide_False by solve_elem.
    rewrite !Nat.add_0_r. apply Hunused. solve_elem.
  - pose proof (Hsilent rid p Hlook) as [Hp0 Hpin].
    rewrite lookup_delete. case_decide; [done|].
    intros Hl. pose proof (Hsilent rid' p' Hl) as [H0 Hin].
    rewrite decide_False.
    + split; [by rewrite H0|done].
    + intros Heq. by apply (Hdistinct rid rid' p p') in Heq.
  - rewrite !lookup_delete.
    repeat case_decide; try done. apply Hdistinct.
  - pose proof (Hsilent rid p Hlook) as [Hp0 Hpin].
    case_decide; subst; [rewrite Hp0; lia|].
    rewrite Nat.add_0_r. apply Honce.
  - pose proof (Hsilent rid p Hlook) as [Hp0 Hpin].
    rewrite decide_False by (intros <-; done).
    rewrite Nat.add_0_r. by apply Hunused.
Qed.

Lemma run_app (inputs more : list (Z * input)) (g : state) :
  run tools (inputs ++ more) g
  = let '(g1, e1) := run tools inputs g in
    let '(g2, e2) := run tools more g1 in
    (g2, e1 ++ e2).
Proof.
  revert g. induction inputs as [|[t i] inputs IH]; intros g; simpl.
  - by destruct (run tools more g).
  - destruct (step tools t i g) as [g1 e1]. rewrite IH.
    destruct (run tools inputs g1) as [g2 e2].
    destruct (run tools more g2) as [g3 e3]. by rewrite app_assoc.
Qed.

Lemma resolvers_ok_run (inputs : list (Z * input)) (used : list channel)
    (g : state) (effects : list effect) :
  resolvers_ok used g effects →
  NoDup (used ++ channels inputs) →
  resolvers_ok (used ++ channels inputs)
    (run tools inputs g).1 (effects ++ (run tools inputs g).2).
Proof.
  revert used g effects.
  induction inputs as [|[t i] inputs IH]; intros used g effects Hok Hnd;
    simpl.
  - by rewrite !app_nil_r.
  - pose proof (resolvers_ok_step used g effects t i Hok) as Hstep.
    destruct (step tools t i g) as [g1 e1].
    specialize (IH (used ++ option_list (channel_of i)) g1 (effects ++ e1)).
    destruct (run tools inputs g1) as [g2 e2]. simpl in *.
    unfold channels in *. simpl in *.
    destruct (channel_of i) as [ch|]; simpl in *.
    + rewrite <-app_assoc in IH. simpl in IH. rewrite <-app_assoc in IH.
      apply IH; [|done].
      apply Hstep. intros ? [= <-].
      apply NoDup_app in Hnd as (_ & Hnd & _).
      intros Hin. apply (Hnd ch Hin). apply list_elem_of_here.
    + rewrite app_nil_r in *. rewrite <-app_assoc in IH.
      apply IH; [|done]. apply Hstep. done.
Qed.

(** A channel that no pending request holds and no later message brings
    is never replied on. *)
Lemma unreferenced_silent (ch : channel) (inputs : list (Z * input))
    (g : state) :
  (∀ requestId p, pendingRequests g !! requestId = Some p → resolve p ≠ ch) →
  ch ∉ channels inputs →
  replies ch (run tools inputs g).2 = 0%nat.
Proof.
  revert g. induction inputs as [|[t i] inputs IH]; intros g Hpend Hnot;
    simpl; [done|].
  pose proof (step_outcome t i g) as Hout.
  destruct (step tools t i g) as [g1 e1].
  specialize (IH g1).
  destruct (run tools inputs g1) as [g2 e2]. simpl in *.
  rewrite replies_app, (replies_occurrences ch e1).
  unfold channels in *. simpl in Hnot.
  destruct Hout as [Hc Hp He|c Hc Hp He|c rid p Hc Hres Hp He
                    |c rid p Hc Hlook Hp He|rid p Hc Hlook Hp He];
    rewrite Hc in Hnot; simpl in Hnot;
    rewrite He, ?occurrences_cons, ?occurrences_nil.
  - rewrite IH; [done| |done]. intros ??. rewrite Hp. apply Hpend.
  - rewrite decide_False by solve_elem.
    rewrite IH; [done| |solve_elem]. intros ??. rewrite Hp. apply Hpend.
  - rewrite IH; [done| |solve_elem]. intros rid' p'. rewrite Hp.
    rewrite lookup_insert. case_decide; [|apply Hpend].
    intros [= <-]. solve_elem.
  - rewrite !decide_False; [|solve_elem|by eapply Hpend].
    rewrite IH; [done| |solve_elem]. intros rid' p'. rewrite Hp.
    rewrite lookup_delete. case_decide; [done|apply Hpend].
  - rewrite decide_False by (by eapply Hpend).
    rewrite IH; [done| |done]. intros rid' p'. rewrite Hp.
    rewrite lookup_delete. case_decide; [done|apply Hpend].
Qed.

(** No reply channel is used twice: whatever messages arrive, as long as
    each brings its own channel, a caller is answered at most once, and
    the resolver of a request still pending was not called yet. *)
Lemma answered_at_most_once (s : local) (inputs : list (Z * input)) :
  NoDup (channels inputs) →
  (∀ ch, (replies ch (run tools inputs (loaded s)).2 ≤ 1)%nat)
  ∧ ∀ requestId p,
      pendingRequests (run tools inputs (loaded s)).1 !! requestId = Some p →
      replies (resolve p) (run tools inputs (loaded s)).2 = 0%nat.
Proof.
  intros Hnd.
  pose proof (resolvers_ok_run inputs [] (loaded s) []
                (resolvers_ok_loaded s) Hnd) as [Hsilent _ Honce _].
  simpl in *. split; [done|].
  intros rid p Hl. by apply (Hsilent rid p).
Qed.

End ResolverFacts.
Section GatewayClaims.
Import Js Storage Spec Background.

(** C2, as stated, fails: with nobody logged in, a malformed event is not
    answered with the validator's errors but with the login error, also
    from an allowed site. *)
Lemma malformed_event_logged_out :
  let g := loaded (store_of None [record_of (Str "allow") None]) in
  Nip07Signer.validateEvent sample_now stale_event = [Nip07Signer.err_range]
  ∧ getSiteStatus sample_now sample_site (storage g) = (allowed, storage g)
  ∧ onMessage sample_tools sample_now (sign_request sample_site stale_event)
      NoTab 1%nat g
    = (g, [SendResponse 1%nat (Error not_logged_in)]).
Proof. cbv zeta. repeat split; vm_compute; reflexivity. Qed.

(** C2, amended: a SignEvent request whose event fails validation changes
    nothing and has one effect, an error reply to the caller: with an
    identity logged in the reply is "Malformed event: " followed by the
    validator's errors joined by ", ", otherwise it is the login error.
    This holds whatever the permission store holds (the store is neither
    read nor purged), so also for an allowed site: the signer is not
    called, no history entry is written, no dialog is opened. *)
Theorem malformed_event_rejected (tools : Nip07Signer.NostrTools)
    (date_now : Z) (req : request) (sender : tab) (ch : channel) (g : state)
    (ev : value) :
  body req = SIGN_EVENT ev →
  Nip07Signer.validateEvent date_now ev ≠ [] →
  onMessage tools date_now req sender ch g
  = (g, [SendResponse ch
           (Error (if isLoggedIn (storage g)
                   then "Malformed event: "
                        +:+ join ", " (Nip07Signer.validateEvent date_now ev)
                   else not_logged_in))]).
Proof.
  intros Hb Hv. unfold onMessage. rewrite Hb.
  destruct (resolve_site req sender) as [d o].
  destruct (isLoggedIn (storage g)) eqn:E.
  - by apply sign_event_malformed.
  - by apply sign_event_logged_out.
Qed.

Lemma malformed_event_rejected_witness :
  onMessage sample_tools sample_now (sign_request sample_site stale_event)
    NoTab 1%nat
    (loaded (store_of (Some "nsec1") [record_of (Str "allow") None]))
  = (loaded (store_of (Some "nsec1") [record_of (Str "allow") None]),
     [SendResponse 1%nat
        (Error ("Malformed event: " +:+ Nip07Signer.err_range))]).
Proof.
  refine (malformed_event_rejected sample_tools sample_now
            (sign_request sample_site stale_event) NoTab 1%nat
            (loaded (store_of (Some "nsec1") [record_of (Str "allow") None]))
            stale_event eq_refl _).
  vm_compute. discriminate.
Defined.

(** C3, as stated, fails: with nobody logged in, a well-formed request
    from a denied site is answered with the login error, not with
    'User rejected'. *)
Lemma denied_site_logged_out :
  let g := loaded (store_of None [record_of (Str "deny") None]) in
  Nip07Signer.validateEvent sample_now sample_event = []
  ∧ getSiteStatus sample_now sample_site (storage g) = (denied, storage g)
  ∧ onMessage sample_tools sample_now (sign_request sample_site sample_event)
      NoTab 1%nat g
    = (g, [SendResponse 1%nat (Error not_logged_in)]).
Proof. cbv zeta. repeat split; vm_compute; reflexivity. Qed.

(** C3, amended: a well-formed SignEvent request from a site whose stored
    record is an unexpired deny changes nothing and has one effect, an
    error reply to the caller within the same dispatch: 'User rejected'
    with an identity logged in, the login error otherwise. The signer is
    not called, no history entry is written, no dialog is opened. *)
Theorem denied_site_rejected (tools : Nip07Signer.NostrTools)
    (date_now : Z) (req : request) (sender : tab) (ch : channel) (g : state)
    (ev : value) (p : Permission) :
  body req = SIGN_EVENT ev →
  Nip07Signer.validateEvent date_now ev = [] →
  record_for (resolve_site req sender).1 (storage g) = Some p →
  unexpired date_now p →
  type p = Str "deny" →
  onMessage tools date_now req sender ch g
  = (g, [SendResponse ch
           (Error (if isLoggedIn (storage g)
                   then "User rejected" else not_logged_in))]).
Proof.
  intros Hb Hv Hrec He Ht. unfold onMessage. rewrite Hb.
  destruct (resolve_site req sender) as [d o]. simpl in Hrec.
  destruct (isLoggedIn (storage g)) eqn:E.
  - by eapply sign_event_denied.
  - by apply sign_event_logged_out.
Qed.

Lemma denied_site_rejected_witness :
  onMessage sample_tools sample_now (sign_request sample_site sample_event)
    NoTab 1%nat
    (loaded (store_of (Some "nsec1") [record_of (Str "deny") None]))
  = (loaded (store_of (Some "nsec1") [record_of (Str "deny") None]),
     [SendResponse 1%nat (Error "User rejected")]).
Proof.
  exact (denied_site_rejected sample_tools sample_now
           (sign_request sample_site sample_event) NoTab 1%nat
           (loaded (store_of (Some "nsec1") [record_of (Str "deny") None]))
           sample_event (record_of (Str "deny") None)
           eq_refl eq_refl eq_refl I eq_refl).
Defined.


(** C6: when a window the gateway tracks is removed while the pending
    request of its request id still exists, the only effect is that the
    resolver of that pending request is called with the error
    'User closed dialog'; afterwards the stored [sign_request_<requestId>]
    payload, the pending request and the tracker entry of the window are
    gone. *)
Theorem window_abandonment (tools : Nip07Signer.NostrTools) (g : state)
    (windowId : Z) (requestId : string) (p : PendingRequest) :
  reachable tools g →
  map_get windowId (dialogWindows g) = Some requestId →
  pendingRequests g !! requestId = Some p →
  (onRemoved windowId g).2
    = [SendResponse (resolve p) (Error "User closed dialog")]
  ∧ sign_requests (storage (onRemoved windowId g).1)
      !! sign_request_key requestId = None
  ∧ pendingRequests (onRemoved windowId g).1 !! requestId = None
  ∧ map_get windowId (dialogWindows (onRemoved windowId g).1) = None.
Proof.
  intros Hr Hw Hp.
  assert (requestId ≠ EmptyString) as Hne.
  { apply reachable_tracked in Hr.
    rewrite Forall_forall in Hr.
    apply (Hr (windowId, requestId)), map_get_elem, Hw. }
  unfold onRemoved. rewrite Hw.
  apply String.eqb_neq in Hne. rewrite Hne, Hp. simpl.
  split; [done|]. split; [apply lookup_delete_eq|].
  split; [apply lookup_delete_eq|apply map_get_delete].
Qed.

Lemma window_abandonment_witness :
  (onRemoved 7 awaiting_approval).2
    = [SendResponse 1%nat (Error "User closed dialog")]
  ∧ sign_requests (storage (onRemoved 7 awaiting_approval).1)
      !! sign_request_key (pretty sample_now) = None
  ∧ pendingRequests (onRemoved 7 awaiting_approval).1 !! pretty sample_now
    = None
  ∧ map_get 7 (dialogWindows (onRemoved 7 awaiting_approval).1) = None.
Proof.
  apply (window_abandonment sample_tools awaiting_approval 7
           (pretty sample_now)
           {| resolve := 1%nat; event := sample_event;
              domain := sample_site;
              origin := Some ("https://" +:+ sample_site) |}).
  - apply reachable_created, reachable_message, reachable_loaded.
  - vm_compute. reflexivity.
  - vm_compute. reflexivity.
Defined.

(** C5, on the failing input: two requests from unknown sites dispatched
    at the same clock reading get the same request id; the second
    creation overwrites the pending request of the first, so two dialogs
    are opened for one pending request, which holds the resolver of the
    second caller. *)
Theorem same_instant_requests_share_id :
  let '(g, effects) := run sample_tools same_instant (loaded logged_in) in
  effects = [WindowsCreate "1700000000000"; WindowsCreate "1700000000000"]
  ∧ size (pendingRequests g) = 1%nat
  ∧ resolve <$> pendingRequests g !! "1700000000000" = Some 2%nat
  ∧ domain <$> pendingRequests g !! "1700000000000" = Some "b.example".
Proof. vm_compute. repeat split; reflexivity. Qed.

(** C1, on the failing input: after the two same-instant requests, the
    approval given in one of the two windows resolves the second caller;
    both windows close and both tables are empty, and the first caller
    was never answered. Nor will it be: whatever inputs follow, no reply
    goes to its channel. *)
Theorem same_instant_first_caller_unanswered :
  (let '(g, effects) :=
     run sample_tools same_instant_resolved (loaded logged_in) in
   replies 1%nat effects = 0%nat
   ∧ replies 2%nat effects = 1%nat
   ∧ dialogs effects = 2%nat
   ∧ pendingRequests g = ∅
   ∧ dialogWindows g = [])
  ∧ ∀ more : list (Z * input),
      1%nat ∉ channels more →
      replies 1%nat
        (run sample_tools (same_instant_resolved ++ more)
           (loaded logged_in)).2 = 0%nat.
Proof.
  split; [vm_compute; repeat split; reflexivity|].
  intros more Hmore. rewrite run_app.
  assert (∃ g effects,
            run sample_tools same_instant_resolved (loaded logged_in)
            = (g, effects)
            ∧ pendingRequests g = ∅ ∧ replies 1%nat effects = 0%nat)
    as (g & effects & -> & Hg & He)
    by (eexists _, _; split; [reflexivity|]; vm_compute; done).
  pose proof (unreferenced_silent sample_tools 1%nat more g) as Hs.
  destruct (run sample_tools more g) as [g' effects']. simpl in *.
  rewrite replies_app, He, Hs; [done| |done].
  intros requestId p. by rewrite Hg, lookup_empty.
Qed.

(** C9: an approve click with a choice other than "once" writes the
    chosen permission (site of the dialog, decision, duration and expiry)
    into the store before it sends the response; the gateway handles the
    response on that store and leaves the permission list as it is. So
    the one record stored for the site is the chosen one when the signer
    is called (allow) and when the resolver of the pending request is
    called, which both happen inside that handler. *)
Theorem approval_stores_permission_first (tools : Nip07Signer.NostrTools)
    (click_time dispatch_time : Z) (dlg : SignDialog.dialog)
    (a : SignDialog.action) (d : SignDialog.duration) (sender : tab)
    (ack : channel) (g : state) :
  d ≠ SignDialog.once →
  let clicked := (SignDialog.approve_click click_time dlg a d (storage g)).1 in
  let sent := (SignDialog.approve_click click_time dlg a d (storage g)).2 in
  let handled :=
    SignDialog.approve tools click_time dispatch_time dlg a d sender ack g in
  permissions_for (SignDialog.domain dlg) clicked
    = [chosen click_time dlg a d]
  ∧ body sent
    = SIGN_DIALOG_RESPONSE (SignDialog.requestId dlg)
        (match a with SignDialog.allow => true | SignDialog.deny => false end)
        None
  ∧ handled
    = onMessage tools dispatch_time sent sender ack (with_storage clicked g)
  ∧ postr_site_permissions (storage handled.1)
    = postr_site_permissions clicked
  ∧ permissions_for (SignDialog.domain dlg) (storage handled.1)
    = [chosen click_time dlg a d]
  ∧ ∀ id p,
      SignDialog.requestId dlg = Some id →
      pendingRequests g !! id = Some p →
      pendingRequests handled.1 !! id = None
      ∧ match a with
        | SignDialog.allow =>
            ∃ r, handled.2 = [SignEventCall (event p);
                              SendResponse (resolve p) r;
                              SendResponse ack Acknowledge]
        | SignDialog.deny =>
            handled.2 = [SendResponse (resolve p) (Error "User rejected");
                         SendResponse ack Acknowledge]
        end.
Proof.
  intros Hd. cbv zeta.
  assert ((SignDialog.approve_click click_time dlg a d (storage g)).1
          = addSitePermission click_time (SignDialog.domain dlg)
              (Str (SignDialog.action_string a))
              (SignDialog.duration_string d)
              (expiresAt (chosen click_time dlg a d)) (storage g)) as Hclick
    by (destruct a, d; done).
  assert (permissions_for (SignDialog.domain dlg)
            (SignDialog.approve_click click_time dlg a d (storage g)).1
          = [chosen click_time dlg a d]) as Hchosen
    by (rewrite Hclick; apply permissions_for_add).
  assert (SignDialog.approve tools click_time dispatch_time dlg a d sender
            ack g
          = handle_dialog_response tools dispatch_time
              (SignDialog.requestId dlg)
              (match a with
               | SignDialog.allow => true
               | SignDialog.deny => false
               end) None ack
              (with_storage
                 (SignDialog.approve_click click_time dlg a d (storage g)).1
                 g)) as Happrove.
  { unfold SignDialog.approve, SignDialog.approve_click, onMessage. simpl.
    destruct (resolve_site _ sender). by destruct a. }
  assert (postr_site_permissions
            (storage
               (SignDialog.approve tools click_time dispatch_time dlg a d
                  sender ack g).1)
          = postr_site_permissions
              (SignDialog.approve_click click_time dlg a d (storage g)).1)
    as Hperms by (rewrite Happrove; apply dialog_response_permissions).
  split; [done|]. split; [by destruct a|].
  split; [done|]. split; [done|].
  split; [unfold permissions_for in *; by rewrite Hperms|].
  intros id p Hid Hp. rewrite Happrove, Hid.
  set (g1 := with_storage _ g).
  set (b := match a with
            | SignDialog.allow => true
            | SignDialog.deny => false
            end).
  pose proof (dialog_response_matched tools dispatch_time id b None ack g1 p
                Hp) as Hm.
  destruct (handle_dialog_response tools dispatch_time (Some id) b None ack
              g1) as [g' effects].
  destruct Hm as (Hpend & _ & _ & _ & Heff). simpl.
  split; [rewrite Hpend; apply lookup_delete_eq|].
  subst b. by destruct a.
Qed.

Lemma approval_stores_permission_first_witness :
  permissions_for sample_site
    (storage
       (SignDialog.approve sample_tools (sample_now + 4000)
          (sample_now + 4005) sample_dialog SignDialog.allow
          (SignDialog.minutes 15) NoTab 2%nat awaiting_approval).1)
  = [chosen (sample_now + 4000) sample_dialog SignDialog.allow
       (SignDialog.minutes 15)].
Proof.
  refine (proj1 (proj2 (proj2 (proj2 (proj2
            (approval_stores_permission_first sample_tools
               (sample_now + 4000) (sample_now + 4005) sample_dialog
               SignDialog.allow (SignDialog.minutes 15) NoTab 2%nat
               awaiting_approval _)))))).
  discriminate.
Defined.

End GatewayClaims.

(** ** More on the permission store and the signing history *)

Section StorageMore.
Import Js Storage Spec Terms.

Lemma filter_length_same {A} (f : A → bool) (l : list A) :
  length (List.filter f l) = length l → List.filter f l = l.
Proof.
  induction l as [|x l IH]; simpl; [done|].
  destruct (f x); simpl.
  - intros [= H]. by rewrite IH.
  - intros H. pose proof (List.filter_length_le f l). lia.
Qed.

Lemma filter_filter_same {A} (f : A → bool) (l : list A) :
  List.filter f (List.filter f l) = List.filter f l.
Proof.
  induction l as [|x l IH]; simpl; [done|].
  destruct (f x) eqn:E; simpl; [by rewrite E, IH|done].
Qed.

Lemma filter_comm {A} (f g : A → bool) (l : list A) :
  List.filter f (List.filter g l) = List.filter g (List.filter f l).
Proof.
  induction l as [|x l IH]; simpl; [done|].
  destruct (f x) eqn:Ef, (g x) eqn:Eg; simpl; rewrite ?Ef, ?Eg, ?IH; done.
Qed.

Lemma filter_sublist {A} (f : A → bool) (l : list A) :
  List.filter f l `sublist_of` l.
Proof.
  induction l as [|x l IH]; simpl; [done|].
  destruct (f x); by constructor.
Qed.

Lemma cleanup_permissions (date_now : Z) (s : local) :
  postr_site_permissions (cleanupExpiredPermissions date_now s).2
  = List.filter (valid date_now) (postr_site_permissions s).
Proof.
  unfold cleanupExpiredPermissions, getSitePermissions. simpl.
  fold (valid date_now).
  destruct (length (List.filter (valid date_now) (postr_site_permissions s))
            =? length (postr_site_permissions s))%nat eqn:E; simpl; [|done].
  apply Nat.eqb_eq in E. by rewrite filter_length_same.
Qed.

Lemma cleanup_fixed (date_now : Z) (s : local) :
  List.filter (valid date_now) (postr_site_permissions s)
  = postr_site_permissions s →
  cleanupExpiredPermissions date_now s = (0%nat, s).
Proof.
  intros H. unfold cleanupExpiredPermissions, getSitePermissions.
  fold (valid date_now). rewrite H, Nat.sub_diag, Nat.eqb_refl. done.
Qed.

(** X1: the signing history is capped. An appended entry comes first,
    followed by the 999 newest of the old entries: the history never
    exceeds 1000 entries, a history below the cap loses nothing, and a
    full one loses its oldest entry. Nothing else in the storage
    changes. *)
Theorem history_capped (date_now : Z) (d : string) (kind id : value)
    (s : local) :
  let entry := {| history_domain := d; eventKind := kind; eventId := id;
                  timestamp := date_now |} in
  let old := postr_signing_history s in
  let new := postr_signing_history (addSigningHistory date_now d kind id s) in
  new = entry :: firstn 999 old
  ∧ (length new ≤ 1000)%nat
  ∧ ((length old < 1000)%nat → new = entry :: old)
  ∧ ((1000 ≤ length old)%nat →
       length new = 1000%nat ∧ new = entry :: removelast (firstn 1000 old))
  ∧ postr_site_permissions (addSigningHistory date_now d kind id s)
    = postr_site_permissions s
  ∧ postr_nsec (addSigningHistory date_now d kind id s) = postr_nsec s.
Proof.
  cbv zeta. unfold addSigningHistory, getSigningHistory.
  cbn [postr_signing_history postr_site_permissions postr_nsec with_history].
  change 1000%nat with (S 999) at 1.
  rewrite firstn_cons.
  split; [done|].
  split; [cbn [length]; rewrite length_firstn; lia|].
  split; [intros H; by rewrite firstn_all2 by lia|].
  split; [|done].
  intros H. split; [cbn [length]; rewrite length_firstn; lia|].
  f_equal. symmetry. apply List.removelast_firstn. lia.
Qed.

(** X2: the sweep keeps exactly the records that have a truthy type and
    are not expired, in their order; it returns how many it removed; and
    a second sweep at the same time removes nothing. *)
Theorem sweep_removes_void_records (date_now : Z) (s : local) :
  let swept := (cleanupExpiredPermissions date_now s).2 in
  (∀ p, p ∈ postr_site_permissions swept ↔
          p ∈ postr_site_permissions s
          ∧ truthy (type p) = true ∧ expired date_now p = false)
  ∧ postr_site_permissions swept `sublist_of` postr_site_permissions s
  ∧ ((cleanupExpiredPermissions date_now s).1
     + length (postr_site_permissions swept)
     = length (postr_site_permissions s))%nat
  ∧ cleanupExpiredPermissions date_now swept = (0%nat, swept).
Proof.
  cbv zeta. rewrite cleanup_permissions.
  split; [|split; [|split]].
  - intros p. rewrite !list_elem_of_In, List.filter_In. unfold valid.
    rewrite andb_true_iff, negb_true_iff. done.
  - apply filter_sublist.
  - unfold cleanupExpiredPermissions, getSitePermissions. simpl.
    fold (valid date_now).
    pose proof (List.filter_length_le (valid date_now)
                  (postr_site_permissions s)). lia.
  - apply cleanup_fixed. rewrite cleanup_permissions.
    apply filter_filter_same.
Qed.

(** X3: sweeping does not change what a site is told, as long as the
    site has at most one record: a read after the sweep gives the status
    a read before the sweep would have given, and it finds nothing left
    to purge. *)
Theorem sweep_keeps_decisions (date_now : Z) (d : string) (s : local) :
  (length (permissions_for d s) ≤ 1)%nat →
  let swept := (cleanupExpiredPermissions date_now s).2 in
  getSiteStatus date_now d swept = ((getSiteStatus date_now d s).1, swept).
Proof.
  intros Hone. cbv zeta.
  set (swept := (cleanupExpiredPermissions date_now s).2).
  assert (permissions_for d swept
          = List.filter (valid date_now) (permissions_for d s)) as Hfor.
  { unfold permissions_for, swept. rewrite cleanup_permissions.
    apply filter_comm. }
  unfold record_for.
  destruct (permissions_for d s) as [|p [|q rest]] eqn:E;
    [| |simpl in Hone; lia].
  - rewrite (getSiteStatus_absent date_now d s)
      by (unfold record_for; by rewrite E).
    apply getSiteStatus_absent. unfold record_for. by rewrite Hfor.
  - simpl in Hfor. unfold valid in Hfor.
    assert (record_for d s = Some p) as Hrec
      by (unfold record_for; by rewrite E).
    destruct (truthy (type p)) eqn:Ht; simpl in Hfor.
    + destruct (expired date_now p) eqn:He; simpl in Hfor.
      * rewrite (getSiteStatus_expired date_now d s p) by done.
        apply getSiteStatus_absent. unfold record_for. by rewrite Hfor.
      * rewrite (getSiteStatus_decision date_now d s p) by done.
        apply getSiteStatus_decision; [|done..].
        unfold record_for. by rewrite Hfor.
    + rewrite (getSiteStatus_no_type date_now d s p) by done.
      apply getSiteStatus_absent. unfold record_for. by rewrite Hfor.
Qed.

Lemma sweep_keeps_decisions_witness :
  getSiteStatus sample_now sample_site
    (cleanupExpiredPermissions sample_now
       (store_of None [record_of (Str "deny") None;
                       {| domain := "old.example"; type := Undefined;
                          duration := "permanent"; expiresAt := None;
                          addedAt := 0 |}])).2
  = (denied, store_of None [record_of (Str "deny") None]).
Proof.
  refine (sweep_keeps_decisions sample_now sample_site
            (store_of None [record_of (Str "deny") None;
                            {| domain := "old.example"; type := Undefined;
                               duration := "permanent"; expiresAt := None;
                               addedAt := 0 |}]) _).
  vm_compute. lia.
Defined.

(** X4: a read only ever removes records, and only of the domain read:
    the permission list afterwards is a sublist of the one before, the
    records of every other domain are the same, no other key of the
    storage changes, and reading again at the same time gives the same
    status and changes nothing more. *)
Theorem read_is_local_and_stable (date_now : Z) (d : string) (s : local) :
  let read := getSiteStatus date_now d s in
  postr_site_permissions read.2 `sublist_of` postr_site_permissions s
  ∧ (∀ d', d' ≠ d → permissions_for d' read.2 = permissions_for d' s)
  ∧ read.2 = with_permissions (postr_site_permissions read.2) s
  ∧ getSiteStatus date_now d read.2 = read.
Proof.
  cbv zeta.
  assert (getSiteStatus date_now d s = ((getSiteStatus date_now d s).1, s)
          ∨ getSiteStatus date_now d s = (unknown, removeSitePermission d s))
    as [H|H].
  { unfold getSiteStatus. destruct (List.find _ _); simpl; [|by left].
    repeat case_match; simpl; auto. }
  - rewrite H. simpl. split; [done|]. split; [done|].
    split; [by rewrite with_permissions_same|]. by rewrite <-H.
  - rewrite H. simpl. split; [apply filter_sublist|].
    split; [intros d' Hd'; by apply permissions_for_remove_other|].
    split; [done|].
    apply getSiteStatus_absent. unfold record_for.
    by rewrite permissions_for_remove.
Qed.

(** X5: a decision written is the decision read. After an upsert of
    ['allow'] or ['deny'] for a domain, a read at a time up to the expiry
    (or any time, without expiry) returns that decision and leaves the
    store alone; a read after a non-zero expiry returns unknown and
    leaves no record for the domain; and after a revoke the read returns
    unknown. *)
Theorem upsert_then_read (written date_now : Z) (d : string) (deny : bool)
    (dur : string) (expires : option Z) (s : local) :
  let stored :=
    addSitePermission written d (Str (if deny then "deny" else "allow")) dur
      expires s in
  (match expires with Some e => e = 0 ∨ date_now ≤ e | None => True end →
     getSiteStatus date_now d stored
     = (if deny then denied else allowed, stored))
  ∧ (∀ e, expires = Some e → e ≠ 0 → e < date_now →
       (getSiteStatus date_now d stored).1 = unknown
       ∧ permissions_for d (getSiteStatus date_now d stored).2 = [])
  ∧ getSiteStatus date_now d (removeSitePermission d stored)
    = (unknown, removeSitePermission d stored).
Proof.
  cbv zeta.
  set (ty := Str (if deny then "deny" else "allow")).
  set (stored := addSitePermission written d ty dur expires s).
  assert (record_for d stored
          = Some {| domain := d; type := ty; duration := dur;
                    expiresAt := expires; addedAt := written |}) as Hrec
    by (unfold record_for, stored; by rewrite permissions_for_add).
  split; [|split].
  - intros He.
    rewrite (getSiteStatus_decision date_now d stored _ Hrec).
    + subst ty. by destruct deny.
    + unfold expired. simpl. destruct expires as [e|]; [|done].
      apply andb_false_iff. destruct He as [->|He]; [by left|right; lia].
    + subst ty. by destruct deny.
  - intros e -> Hz Hlt.
    rewrite (getSiteStatus_expired date_now d stored _ Hrec).
    + split; [done|]. apply permissions_for_remove.
    + unfold expired. simpl. apply andb_true_iff. split; [|lia].
      apply negb_true_iff. lia.
  - apply getSiteStatus_absent. unfold record_for.
    by rewrite permissions_for_remove.
Qed.

End StorageMore.

(** ** More on the signing gateway *)

Section GatewayMoreFacts.
Import Js Storage Spec Terms Background.
Variable tools : Nip07Signer.NostrTools.

Lemma valid_event_object (date_now : Z) (ev : value) :
  Nip07Signer.validateEvent date_now ev = [] → is_object ev = true.
Proof.
  intros H. destruct (is_object ev) eqn:E; [done|].
  by rewrite validateEvent_not_object in H.
Qed.

Lemma prop_object (ev : value) (k : string) :
  is_object ev = true → prop ev k = Ok (field ev k).
Proof. by destruct ev. Qed.

Lemma onMessage_sign_event (date_now : Z) (req : request) (sender : tab)
    (ch : channel) (g : state) (ev : value) :
  body req = SIGN_EVENT ev →
  onMessage tools date_now req sender ch g
  = handle_sign_event tools date_now (resolve_site req sender).1
      (resolve_site req sender).2 ev ch g.
Proof.
  intros Hb. unfold onMessage. rewrite Hb.
  by destruct (resolve_site req sender).
Qed.

Lemma sign_event_checked (date_now : Z) (d : string) (o : option string)
    (ev : value) (ch : channel) (g : state) :
  isLoggedIn (storage g) = true →
  Nip07Signer.validateEvent date_now ev = [] →
  handle_sign_event tools date_now d o ev ch g
  = let g' := with_storage (getSiteStatus date_now d (storage g)).2 g in
    match (getSiteStatus date_now d (storage g)).1 with
    | denied => (g', [SendResponse ch (Error "User rejected")])
    | allowed => auto_sign tools date_now d ev ch g'
    | unknown => open_dialog date_now d o ev ch g'
    end.
Proof.
  intros Hl Hv. unfold handle_sign_event. rewrite Hl, Hv. simpl.
  by destruct (getSiteStatus date_now d (storage g)).
Qed.

End GatewayMoreFacts.

Section GatewayMore.
Import Js Storage Spec Terms Background.

(** X6: a well-formed request from a site with an unexpired record of a
    truthy type other than ['deny'] is signed at once, without a dialog:
    the signer is called, the signed event goes back to the caller, a
    notification is shown if enabled, and if the history is enabled its
    new first entry names the site, the kind of the event and the id of
    the signed event. Pending requests, tracker and permissions stay as
    they are. *)
Theorem allowed_site_is_signed_at_once (tools : Nip07Signer.NostrTools)
    (date_now : Z) (req : request)
    (sender : tab) (ch : channel) (g : state) (ev signed id : value)
    (p : Permission) :
  body req = SIGN_EVENT ev →
  isLoggedIn (storage g) = true →
  Nip07Signer.validateEvent date_now ev = [] →
  record_for (resolve_site req sender).1 (storage g) = Some p →
  unexpired date_now p →
  truthy (type p) = true →
  type p ≠ Str "deny" →
  Nip07Signer.signEvent tools (storage g) ev = Ok signed →
  prop signed "id" = Ok id →
  let d := (resolve_site req sender).1 in
  let settings := getNotificationSettings (storage g) in
  onMessage tools date_now req sender ch g
  = (with_storage
       (if enableSigningHistory settings
        then addSigningHistory date_now d (field ev "kind") id (storage g)
        else storage g) g,
     [SignEventCall ev]
     ++ (if showAutoSignNotifications settings
         then [Notification "Postr" ("Auto-signed event for " +:+ d)]
         else [])
     ++ [SendResponse ch (Result signed)]).
Proof.
  intros Hb Hl Hv Hrec He Ht Hnd Hs Hid. cbv zeta.
  rewrite (onMessage_sign_event _ _ _ _ _ _ ev Hb).
  rewrite sign_event_checked by done. cbv zeta.
  rewrite (getSiteStatus_decision date_now _ (storage g) p)
    by (try done; by apply unexpired_not_expired).
  destruct (is_str (type p) "deny") eqn:E;
    [by apply is_str_spec in E|].
  simpl. rewrite with_storage_same.
  unfold auto_sign. rewrite Hs. unfold record_history.
  destruct (enableSigningHistory _); [|by rewrite with_storage_same].
  rewrite (prop_object ev) by (by eapply valid_event_object).
  simpl. by rewrite Hid.
Qed.

Lemma allowed_site_is_signed_at_once_witness :
  ∃ signed g',
    onMessage sample_tools sample_now (sign_request sample_site sample_event)
      NoTab 1%nat
      (loaded (store_of (Some "nsec1") [record_of (Str "allow") None]))
    = (g', [SignEventCall sample_event;
            Notification "Postr" "Auto-signed event for site.example";
            SendResponse 1%nat (Result signed)])
    ∧ head (postr_signing_history (storage g'))
      = Some {| history_domain := sample_site;
                eventKind := Num (of_Z 1); eventId := Str "event-id";
                timestamp := sample_now |}.
Proof.
  eexists _, _. split.
  - exact (allowed_site_is_signed_at_once sample_tools sample_now
             (sign_request sample_site sample_event) NoTab 1%nat
             (loaded (store_of (Some "nsec1") [record_of (Str "allow") None]))
             sample_event _ (Str "event-id") (record_of (Str "allow") None)
             eq_refl eq_refl eq_refl eq_refl I eq_refl
             ltac:(discriminate) eq_refl eq_refl).
  - reflexivity.
Defined.

(** X7: when the signer throws on the auto-sign path (no usable key, or
    the library fails), the caller gets the message thrown as an error;
    nothing is written to the history and no notification is shown. *)
Theorem signer_failure_is_reported (tools : Nip07Signer.NostrTools)
    (date_now : Z) (req : request)
    (sender : tab) (ch : channel) (g : state) (ev : value) (message : string)
    (p : Permission) :
  body req = SIGN_EVENT ev →
  isLoggedIn (storage g) = true →
  Nip07Signer.validateEvent date_now ev = [] →
  record_for (resolve_site req sender).1 (storage g) = Some p →
  unexpired date_now p →
  truthy (type p) = true →
  type p ≠ Str "deny" →
  Nip07Signer.signEvent tools (storage g) ev = Throw message →
  onMessage tools date_now req sender ch g
  = (g, [SignEventCall ev; SendResponse ch (Error message)]).
Proof.
  intros Hb Hl Hv Hrec He Ht Hnd Hs.
  rewrite (onMessage_sign_event _ _ _ _ _ _ ev Hb).
  rewrite sign_event_checked by done. cbv zeta.
  rewrite (getSiteStatus_decision date_now _ (storage g) p)
    by (try done; by apply unexpired_not_expired).
  destruct (is_str (type p) "deny") eqn:E;
    [by apply is_str_spec in E|].
  simpl. rewrite with_storage_same.
  unfold auto_sign. by rewrite Hs.
Qed.

Lemma signer_failure_is_reported_witness :
  onMessage rejecting_tools sample_now
    (sign_request sample_site sample_event) NoTab 1%nat
    (loaded (store_of (Some "nsec1") [record_of (Str "allow") None]))
  = (loaded (store_of (Some "nsec1") [record_of (Str "allow") None]),
     [SignEventCall sample_event;
      SendResponse 1%nat (Error "Invalid checksum")]).
Proof.
  exact (signer_failure_is_reported rejecting_tools sample_now
           (sign_request sample_site sample_event) NoTab 1%nat
           (loaded (store_of (Some "nsec1") [record_of (Str "allow") None]))
           sample_event "Invalid checksum" (record_of (Str "allow") None)
           eq_refl eq_refl eq_refl eq_refl I eq_refl
           ltac:(discriminate) eq_refl).
Defined.

(** X8: a well-formed request from a site whose status is unknown gets no
    reply yet. One dialog window is asked for, with the clock reading as
    request id; the pending request under that id holds the caller's
    channel, the event and the site; the dialog opened with that id
    loads the same event and site; and no record is stored for the
    site. *)
Theorem unknown_site_opens_dialog (tools : Nip07Signer.NostrTools)
    (date_now : Z) (req : request)
    (sender : tab) (ch : channel) (g : state) (ev : value) :
  body req = SIGN_EVENT ev →
  isLoggedIn (storage g) = true →
  Nip07Signer.validateEvent date_now ev = [] →
  (getSiteStatus date_now (resolve_site req sender).1 (storage g)).1
  = unknown →
  let d := (resolve_site req sender).1 in
  let o := (resolve_site req sender).2 in
  let after := onMessage tools date_now req sender ch g in
  after.2 = [WindowsCreate (pretty date_now)]
  ∧ pendingRequests after.1
    = <[pretty date_now := {| resolve := ch; event := ev; domain := d;
                              origin := o |}]> (pendingRequests g)
  ∧ dialogWindows after.1 = dialogWindows g
  ∧ SignDialog.load (Some (pretty date_now)) (storage after.1)
    = Some {| SignDialog.requestId := Some (pretty date_now);
              SignDialog.eventData := ev;
              SignDialog.domain := d;
              SignDialog.origin := o |}
  ∧ permissions_for d (storage after.1) = []
  ∧ postr_signing_history (storage after.1)
    = postr_signing_history (storage g).
Proof.
  intros Hb Hl Hv Hu. cbv zeta.
  rewrite (onMessage_sign_event _ _ _ _ _ _ ev Hb).
  rewrite sign_event_checked by done. cbv zeta. rewrite Hu.
  set (d := (resolve_site req sender).1) in *.
  set (o := (resolve_site req sender).2).
  split; [done|]. split; [done|]. split; [done|].
  split; [apply dialog_loads_request|].
  destruct (getSiteStatus_storage date_now d (storage g)) as [perms Hp].
  split; [|simpl; by rewrite Hp].
  simpl. unfold permissions_for. simpl.
  fold (permissions_for d (getSiteStatus date_now d (storage g)).2).
  revert Hu. unfold getSiteStatus. rewrite find_record_for.
  destruct (record_for d (storage g)) as [p|] eqn:Hrec; simpl.
  - repeat case_match; simpl; try done; intros _;
      apply permissions_for_remove.
  - intros _. unfold record_for in Hrec.
    by destruct (permissions_for d (storage g)).
Qed.

Lemma unknown_site_opens_dialog_witness :
  (onMessage sample_tools sample_now (sign_request sample_site sample_event)
     NoTab 1%nat (loaded logged_in)).2
  = [WindowsCreate (pretty sample_now)].
Proof.
  exact (proj1 (unknown_site_opens_dialog sample_tools sample_now
                  (sign_request sample_site sample_event) NoTab 1%nat
                  (loaded logged_in) sample_event
                  eq_refl eq_refl eq_refl eq_refl)).
Defined.

End GatewayMore.

(** ** Invariants of the gateway *)

Section InvariantFacts.
Import Js Storage Spec Terms Background.
Variable tools : Nip07Signer.NostrTools.

Lemma resolve_site_nonempty (req : request) (sender : tab) :
  (resolve_site req sender).1 ≠ EmptyString.
Proof.
  unfold resolve_site, unknown_site.
  destruct (nonempty (request_domain req)) eqn:E, (request_domain req)
    as [d|], sender as [| |h o']; simpl in *;
    repeat match goal with
           | |- context [String.eqb ?a ?b] =>
               destruct (String.eqb_spec a b)
           end; simpl; done.
Qed.

Lemma valid_event_fields (date_now : Z) (ev : value) :
  Nip07Signer.validateEvent date_now ev = [] → well_typed ev.
Proof.
  intros Hv. pose proof (valid_event_object _ _ Hv) as Hobj.
  rewrite validateEvent_object in Hv by done.
  apply app_eq_nil in Hv as [Hk Hv]. apply app_eq_nil in Hv as [Hc Hv].
  apply app_eq_nil in Hv as [Ht Hs].
  unfold well_typed, is_number, is_string.
  unfold Nip07Signer.check_kind in Hk.
  unfold Nip07Signer.check_created_at in Hc.
  unfold Nip07Signer.check_tags in Ht.
  unfold Nip07Signer.check_content in Hs.
  split; [done|].
  split; [destruct (field ev "kind"); try done; by eexists|].
  split; [destruct (field ev "created_at"); try done; by eexists|].
  split; [by destruct (isArray _)|].
  destruct (field ev "content"); try done; by eexists.
Qed.

(** Where a pending request after a message comes from. *)
Lemma onMessage_pending (date_now : Z) (req : request) (sender : tab)
    (ch : channel) (g : state) (id : string) (p : PendingRequest) :
  pendingRequests (onMessage tools date_now req sender ch g).1 !! id = Some p →
  pendingRequests g !! id = Some p
  ∨ (id = pretty date_now
     ∧ ∃ ev, body req = SIGN_EVENT ev
             ∧ Nip07Signer.validateEvent date_now ev = []
             ∧ p = {| resolve := ch; event := ev;
                      domain := (resolve_site req sender).1;
                      origin := (resolve_site req sender).2 |}).
Proof.
  unfold onMessage. destruct (resolve_site req sender) as [d o].
  destruct (body req) as [|ev|requestId approved error|]; simpl.
  - unfold handle_get_public_key. repeat case_match; auto.
  - unfold handle_sign_event.
    destruct (negb _); [auto|].
    destruct (Nip07Signer.validateEvent date_now ev) as [|e errors] eqn:Hv;
      [|auto]. simpl.
    destruct (getSiteStatus date_now d (storage g)) as [[| |] s']; simpl.
    + unfold auto_sign. repeat case_match; auto.
    + auto.
    + rewrite lookup_insert. case_decide; [|auto].
      intros [= <-]. right. split; [done|]. by exists ev.
  - destruct requestId as [rid|];
      [|rewrite dialog_response_unmatched by done; auto].
    destruct (pendingRequests g !! rid) as [q|] eqn:Hq.
    + pose proof (dialog_response_matched tools date_now rid approved error
                    ch g q Hq) as Hm.
      destruct (handle_dialog_response tools date_now (Some rid) approved
                  error ch g) as [g' effects].
      destruct Hm as (Hpend & _). simpl. rewrite Hpend.
      rewrite lookup_delete. case_decide; [done|auto].
    + rewrite dialog_response_unmatched by (by intros ? [= <-]). auto.
  - auto.
Qed.

Lemma onRemoved_pending (w : Z) (g : state) (id : string)
    (p : PendingRequest) :
  pendingRequests (onRemoved w g).1 !! id = Some p →
  pendingRequests g !! id = Some p.
Proof.
  unfold onRemoved. repeat case_match; simpl; try done.
  rewrite lookup_delete. by case_decide.
Qed.

(** *** The tracker as a map *)

Lemma map_set_keys (w : Z) (rid : string) (m : list (Z * string)) (k : Z) :
  k ∈ (map_set w rid m).*1 → k = w ∨ k ∈ m.*1.
Proof.
  induction m as [|[w' r'] m IH]; simpl.
  - rewrite list_elem_of_singleton. auto.
  - case_decide; subst; simpl; rewrite !elem_of_cons; intuition.
Qed.

Lemma NoDup_map_set (w : Z) (rid : string) (m : list (Z * string)) :
  NoDup m.*1 → NoDup (map_set w rid m).*1.
Proof.
  induction m as [|[w' r'] m IH]; simpl.
  - intros _. apply NoDup_singleton.
  - rewrite !NoDup_cons. intros [Hnot Hnd].
    case_decide; subst; simpl; rewrite NoDup_cons; [done|].
    split; [|auto]. intros [->|Hin]%map_set_keys; done.
Qed.

Lemma map_delete_sublist (w : Z) (m : list (Z * string)) :
  map_delete w m `sublist_of` m.
Proof. apply filter_sublist. Qed.

Lemma untrack_sublist (requestId : option string) (m : list (Z * string)) :
  untrack requestId m `sublist_of` m.
Proof.
  induction m as [|[w r] m IH]; simpl; [done|].
  case_decide; by constructor.
Qed.

Lemma NoDup_keys_sublist (m1 m2 : list (Z * string)) :
  m1 `sublist_of` m2 → NoDup m2.*1 → NoDup m1.*1.
Proof.
  intros Hs Hnd. eapply sublist_NoDup; [done|]. by apply fmap_sublist.
Qed.


(** With one window per request id, the clean-up of the dialog response
    takes exactly the window of the request out of the tracker. *)
Lemma map_get_untrack (w : Z) (rid : string) (m : list (Z * string)) :
  NoDup m.*1 →
  map_get w m = Some rid →
  (∀ w', map_get w' m = Some rid → w' = w) →
  map_get w (untrack (Some rid) m) = None.
Proof.
  induction m as [|[w' r'] m IH]; simpl; [done|].
  rewrite NoDup_cons. intros [Hnot Hnd] Hget Huniq.
  destruct (decide (Some r' = Some rid)) as [[= ->]|Hne].
  - assert (w' = w) as -> by (apply Huniq; by rewrite decide_True).
    destruct (map_get w m) as [r|] eqn:E; [|done].
    apply map_get_elem in E. by apply (list_elem_of_fmap_2 fst) in E.
  - simpl. destruct (decide (w' = w)) as [->|Hw]; [congruence|].
    apply IH; [done..|].
    intros w'' Hw''. apply Huniq.
    rewrite decide_False; [done|].
    intros ->. apply map_get_elem in Hw''.
    by apply (list_elem_of_fmap_2 fst) in Hw''.
Qed.

Lemma reachable_keys (g : state) :
  reachable tools g → NoDup (dialogWindows g).*1.
Proof.
  induction 1 as [s|g date_now req sender ch _ IH|g win date_now _ IH
                  |g w _ IH|g s _ IH]; simpl.
  - constructor.
  - destruct (onMessage_windows tools date_now req sender ch g)
      as [->|[r ->]]; [done|].
    by eapply NoDup_keys_sublist; [apply untrack_sublist|].
  - destruct win as [id|]; simpl; [|done]. by apply NoDup_map_set.
  - unfold onRemoved. repeat case_match; simpl; try done;
      by eapply NoDup_keys_sublist; [apply map_delete_sublist|].
  - done.
Qed.

End InvariantFacts.

Section Invariants.
Import Js Storage Spec Terms Background.

(** X9: every pending request of a reachable state was made by the
    gateway from a validated request: its id is the decimal rendering of
    a clock reading, its site is not the empty string, and its event is
    an object whose [kind] and [created_at] are numbers, whose [tags] is
    an array and whose [content] is a string. *)
Theorem pending_requests_well_formed (tools : Nip07Signer.NostrTools)
    (g : state) (id : string) (p : PendingRequest) :
  reachable tools g →
  pendingRequests g !! id = Some p →
  (∃ date_now : Z, id = pretty date_now)
  ∧ domain p ≠ EmptyString
  ∧ well_typed (event p).
Proof.
  intros Hr. revert id p.
  induction Hr as [s|g date_now req sender ch _ IH|g win date_now _ IH
                   |g w _ IH|g s _ IH]; intros id p; simpl.
  - by rewrite lookup_empty.
  - intros [Hold|(-> & ev & _ & Hv & ->)]%onMessage_pending; [by apply IH|].
    split; [by eexists|]. split; [apply resolve_site_nonempty|].
    by eapply valid_event_fields.
  - destruct win; apply IH.
  - intros Hold%onRemoved_pending. by apply IH.
  - apply IH.
Qed.

Lemma pending_requests_well_formed_witness :
  (∃ date_now : Z, pretty sample_now = pretty date_now)
  ∧ sample_site ≠ EmptyString
  ∧ well_typed sample_event.
Proof.
  apply (pending_requests_well_formed sample_tools awaiting_approval
           (pretty sample_now)
           {| resolve := 1%nat; event := sample_event;
              domain := sample_site;
              origin := Some ("https://" +:+ sample_site) |}).
  - apply reachable_created, reachable_message, reachable_loaded.
  - vm_compute. reflexivity.
Defined.



(** X11: when the dialog has answered, the closing of its window is
    silent. If a window is the only one tracked for a pending request,
    then after the dialog response for that request the removal of the
    window changes nothing and has no effect; the caller is not resolved
    a second time. *)
Theorem close_after_response_is_silent (tools : Nip07Signer.NostrTools)
    (date_now : Z) (g : state) (w : Z) (id : string) (p : PendingRequest)
    (approved : bool) (error : option string) (sender : tab) (ack : channel)
    (req : request) :
  reachable tools g →
  map_get w (dialogWindows g) = Some id →
  (∀ w', map_get w' (dialogWindows g) = Some id → w' = w) →
  pendingRequests g !! id = Some p →
  body req = SIGN_DIALOG_RESPONSE (Some id) approved error →
  let answered := (onMessage tools date_now req sender ack g).1 in
  onRemoved w answered = (answered, []).
Proof.
  intros Hr Hw Huniq Hp Hb. cbv zeta.
  unfold onMessage. rewrite Hb. destruct (resolve_site req sender) as [d o].
  pose proof (dialog_response_matched tools date_now id approved error ack g
                p Hp) as Hm.
  destruct (handle_dialog_response tools date_now (Some id) approved error
              ack g) as [g' effects].
  destruct Hm as (_ & Hwin & _). simpl.
  unfold onRemoved. rewrite Hwin.
  rewrite map_get_untrack; [done| |done..].
  by apply (reachable_keys tools).
Qed.

Lemma close_after_response_is_silent_witness :
  onRemoved 7
    (onMessage sample_tools (sample_now + 5000)
       (dialog_response (pretty sample_now) true) NoTab 2%nat
       awaiting_approval).1
  = ((onMessage sample_tools (sample_now + 5000)
        (dialog_response (pretty sample_now) true) NoTab 2%nat
        awaiting_approval).1, []).
Proof.
  apply (close_after_response_is_silent sample_tools (sample_now + 5000)
           awaiting_approval 7 (pretty sample_now)
           {| resolve := 1%nat; event := sample_event;
              domain := sample_site;
              origin := Some ("https://" +:+ sample_site) |}
           true None NoTab 2%nat).
  - apply reachable_created, reachable_message, reachable_loaded.
  - vm_compute. reflexivity.
  - intros w'. unfold awaiting_approval. simpl.
    case_decide; [done|discriminate].
  - vm_compute. reflexivity.
  - reflexivity.
Defined.



End Invariants.

(** ** Flows through the gateway *)

Section FlowFacts.
Import Js Storage Spec Terms Background.
Variable tools : Nip07Signer.NostrTools.

Lemma narrows_refl (s : local) : narrows s s.
Proof. by repeat split. Qed.

Lemma narrows_trans (s1 s2 s3 : local) :
  narrows s1 s2 → narrows s2 s3 → narrows s1 s3.
Proof.
  intros (? & ? & ?) (? & ? & ?). repeat split; try congruence.
  by etrans.
Qed.

Lemma narrows_read (date_now : Z) (d : string) (s : local) :
  narrows s (getSiteStatus date_now d s).2.
Proof.
  unfold getSiteStatus. destruct (List.find _ _); [|apply narrows_refl].
  repeat case_match; simpl; try apply narrows_refl;
    (repeat split; apply filter_sublist).
Qed.

Lemma narrows_history (date_now : Z) (d : string) (ev signed : value)
    (s s' : local) :
  record_history date_now d ev signed s = Ok s' → narrows s s'.
Proof. intros [h ->]%record_history_storage. by repeat split. Qed.

Lemma narrows_sign_request (id : string) (s : local) :
  narrows s (remove_sign_request id s).
Proof. by repeat split. Qed.

Lemma narrows_step (date_now : Z) (i : input) (g : state) :
  narrows (storage g) (storage (step tools date_now i g).1).
Proof.
  destruct i as [req sender ch|win rid|w]; simpl.
  - unfold onMessage. destruct (resolve_site req sender) as [d o].
    destruct (body req) as [|ev|requestId approved error|].
    + unfold handle_get_public_key. repeat case_match; apply narrows_refl.
    + unfold handle_sign_event.
      destruct (negb _); [apply narrows_refl|].
      destruct (0 <? _)%nat; [apply narrows_refl|].
      pose proof (narrows_read date_now d (storage g)) as Hread.
      destruct (getSiteStatus date_now d (storage g)) as [[| |] s']; simpl in *.
      * unfold auto_sign. simpl.
        destruct (Nip07Signer.signEvent tools s' ev) as [signed|m]; simpl;
          [|done].
        destruct (record_history date_now d ev signed s') as [s''|m] eqn:E;
          simpl; [|done].
        eapply narrows_trans; [done|]. by eapply narrows_history.
      * done.
      * eapply narrows_trans; [done|]. by repeat split.
    + unfold handle_dialog_response.
      destruct (requestId ≫= _) as [[id p]|]; [|apply narrows_refl].
      destruct approved; [|apply narrows_sign_request].
      destruct (Nip07Signer.signEvent tools _ (event p)) as [signed|m];
        simpl; [|apply narrows_sign_request].
      destruct (record_history date_now (domain p) (event p) signed _)
        as [s''|m] eqn:E; simpl; [|apply narrows_sign_request].
      eapply narrows_trans; [apply (narrows_sign_request id)|].
      by eapply narrows_history.
    + apply narrows_refl.
  - destruct win; apply narrows_refl.
  - unfold onRemoved. repeat case_match; simpl;
      try apply narrows_refl; apply narrows_sign_request.
Qed.

(** The effects of the auto-sign branch, whatever the signer does. *)
Lemma auto_sign_shape (date_now : Z) (d : string) (ev : value)
    (ch : channel) (g : state) :
  let signed := auto_sign tools date_now d ev ch g in
  head signed.2 = Some (SignEventCall ev)
  ∧ dialogs signed.2 = 0%nat
  ∧ reply_channels signed.2 = [ch]
  ∧ pendingRequests signed.1 = pendingRequests g
  ∧ dialogWindows signed.1 = dialogWindows g.
Proof. cbv zeta. unfold auto_sign. repeat case_match; done. Qed.

(** The state the approve flow leaves, for a choice other than once. *)
Lemma approve_state (click_time dispatch_time : Z) (dlg : SignDialog.dialog)
    (a : SignDialog.action) (d : SignDialog.duration) (sender : tab)
    (ack : channel) (g : state) :
  d ≠ SignDialog.once →
  let answered :=
    (SignDialog.approve tools click_time dispatch_time dlg a d sender ack
       g).1 in
  permissions_for (SignDialog.domain dlg) (storage answered)
  = [chosen click_time dlg a d]
  ∧ postr_nsec (storage answered) = postr_nsec (storage g).
Proof.
  intros Hd. cbv zeta.
  unfold SignDialog.approve, SignDialog.approve_click.
  set (s' := match d with SignDialog.once => _ | _ => _ end).
  assert (s' = addSitePermission click_time (SignDialog.domain dlg)
                 (Str (SignDialog.action_string a))
                 (SignDialog.duration_string d)
                 (expiresAt (chosen click_time dlg a d)) (storage g)) as Hs
    by (subst s'; destruct a, d; done).
  pose proof (narrows_step dispatch_time
                (Message (SignDialog.sendResponse dlg
                            (negb match a with
                                  | SignDialog.deny => true
                                  | SignDialog.allow => false
                                  end) None) sender ack)
                (with_storage s' g)) as (Hn & _ & _).
  simpl in Hn. split; [|by rewrite Hn, Hs].
  unfold onMessage. destruct (resolve_site _ sender). simpl.
  unfold permissions_for.
  rewrite dialog_response_permissions. simpl. rewrite Hs.
  apply permissions_for_add.
Qed.

End FlowFacts.

Section Flows.
Import Js Storage Spec Terms Background.

(** X13: a message that names its domain is handled for that domain,
    whatever tab it came from: the sender is only looked at when the
    message carries no domain. *)
Theorem named_domain_overrides_sender (tools : Nip07Signer.NostrTools)
    (date_now : Z) (req : request) (d : string) (sender sender' : tab)
    (ch : channel) (g : state) :
  request_domain req = Some d →
  d ≠ EmptyString →
  resolve_site req sender = (d, request_origin req)
  ∧ onMessage tools date_now req sender ch g
    = onMessage tools date_now req sender' ch g.
Proof.
  intros Hd Hne.
  assert (∀ sd, resolve_site req sd = (d, request_origin req)) as Hsite.
  { intros sd. unfold resolve_site, nonempty. rewrite Hd.
    apply String.eqb_neq in Hne. rewrite Hne. simpl. by rewrite Hne. }
  split; [done|]. unfold onMessage. by rewrite !Hsite.
Qed.

Lemma named_domain_overrides_sender_witness :
  onMessage sample_tools sample_now (sign_request sample_site sample_event)
    NoTab 1%nat (loaded logged_in)
  = onMessage sample_tools sample_now (sign_request sample_site sample_event)
      (Url "other.example" "https://other.example") 1%nat (loaded logged_in).
Proof.
  refine (proj2 (named_domain_overrides_sender sample_tools sample_now
                   (sign_request sample_site sample_event) sample_site
                   NoTab (Url "other.example" "https://other.example")
                   1%nat (loaded logged_in) eq_refl _)).
  discriminate.
Defined.

(** X14: the gateway never grants anything. Whatever inputs it handles,
    the stored key and the settings stay the same and the permission
    list only loses records: every record stored afterwards was stored
    before, unchanged and in the same order. *)
Theorem gateway_never_grants (tools : Nip07Signer.NostrTools)
    (inputs : list (Z * input)) (g : state) :
  narrows (storage g) (storage (run tools inputs g).1).
Proof.
  revert g. induction inputs as [|[t i] inputs IH]; intros g; simpl.
  - apply narrows_refl.
  - pose proof (narrows_step tools t i g) as Hstep.
    destruct (step tools t i g) as [g1 e1].
    specialize (IH g1). destruct (run tools inputs g1) as [g2 e2].
    simpl in *. by eapply narrows_trans.
Qed.

(** X15: a signature is only made with the stored key, over the four
    fields, under the key's own public key. When [signEvent] returns a
    signed event, an nsec is stored, it decodes to a key of type
    ['nsec'], and the result is what [finishEvent] returns for that key
    and the template made of the event's [kind], [created_at], [tags]
    and [content] and the public key derived from the key; no other
    field of the event is passed on. *)
Theorem signEvent_uses_stored_key (tools : Nip07Signer.NostrTools)
    (s : local) (ev signed : value) :
  Nip07Signer.signEvent tools s ev = Ok signed →
  ∃ nsec key pubkey,
    getNsec s = Some nsec
    ∧ nsec ≠ EmptyString
    ∧ Nip07Signer.nip19_decode tools nsec = Ok ("nsec", key)
    ∧ Nip07Signer.getPublicKey tools key = Ok pubkey
    ∧ ev ≠ Null ∧ ev ≠ Undefined
    ∧ Nip07Signer.finishEvent tools
        (Obj [("kind", field ev "kind");
              ("created_at", field ev "created_at");
              ("tags", field ev "tags");
              ("content", field ev "content");
              ("pubkey", pubkey)]) key
      = Ok signed.
Proof.
  unfold Nip07Signer.signEvent, Nip07Signer.privateKey, mbind, result_bind.
  destruct (getNsec s) as [nsec|]; [|done].
  destruct (String.eqb_spec nsec EmptyString) as [|Hne]; [done|].
  destruct (Nip07Signer.nip19_decode tools nsec) as [[ty key]|] eqn:Hdec;
    [|done].
  destruct (String.eqb_spec ty "nsec") as [->|]; [|done].
  destruct (Nip07Signer.getPublicKey tools key) as [pubkey|] eqn:Hpub;
    [|done].
  intros H. exists nsec, key, pubkey.
  destruct ev; try done; simpl in H; by repeat split.
Qed.

Lemma signEvent_uses_stored_key_witness :
  ∃ nsec key pubkey,
    getNsec logged_in = Some nsec
    ∧ nsec ≠ EmptyString
    ∧ Nip07Signer.nip19_decode sample_tools nsec = Ok ("nsec", key)
    ∧ Nip07Signer.getPublicKey sample_tools key = Ok pubkey
    ∧ sample_event ≠ Null ∧ sample_event ≠ Undefined
    ∧ Nip07Signer.finishEvent sample_tools
        (Obj [("kind", field sample_event "kind");
              ("created_at", field sample_event "created_at");
              ("tags", field sample_event "tags");
              ("content", field sample_event "content");
              ("pubkey", pubkey)]) key
      = Nip07Signer.signEvent sample_tools logged_in sample_event.
Proof.
  exact (signEvent_uses_stored_key sample_tools logged_in sample_event _
           eq_refl).
Defined.

(** X16: a timed choice made in the dialog is honoured until it expires.
    After the approve flow with a choice of [m] minutes, a well-formed
    request from the site of the dialog, received logged in and no later
    than [m] minutes after the click, is signed at once without a dialog
    (allow) or rejected at once with 'User rejected' (deny); a request
    after that time finds the record expired, removes it and opens a
    dialog again. *)
Theorem timed_choice_lasts_until_expiry (tools : Nip07Signer.NostrTools)
    (click_time dispatch_time date_now : Z) (dlg : SignDialog.dialog)
    (a : SignDialog.action) (m : Z) (sender sender' : tab)
    (ack ch : channel) (g : state) (req : request) (ev : value) :
  0 < m →
  0 < click_time →
  body req = SIGN_EVENT ev →
  (resolve_site req sender').1 = SignDialog.domain dlg →
  isLoggedIn (storage g) = true →
  Nip07Signer.validateEvent date_now ev = [] →
  let answered :=
    (SignDialog.approve tools click_time dispatch_time dlg a
       (SignDialog.minutes m) sender ack g).1 in
  let later := onMessage tools date_now req sender' ch answered in
  (date_now ≤ click_time + m * 60 * 1000 →
     match a with
     | SignDialog.allow =>
         head later.2 = Some (SignEventCall ev)
         ∧ dialogs later.2 = 0%nat
         ∧ reply_channels later.2 = [ch]
         ∧ pendingRequests later.1 = pendingRequests answered
     | SignDialog.deny =>
         later = (answered, [SendResponse ch (Error "User rejected")])
     end)
  ∧ (click_time + m * 60 * 1000 < date_now →
       later.2 = [WindowsCreate (pretty date_now)]
       ∧ permissions_for (SignDialog.domain dlg) (storage later.1) = []).
Proof.
  intros Hm Ht Hb Hsite Hl Hv. cbv zeta.
  destruct (approve_state tools click_time dispatch_time dlg a
              (SignDialog.minutes m) sender ack g) as [Hperm Hnsec];
    [done|].
  set (answered := (SignDialog.approve tools click_time dispatch_time dlg a
                      (SignDialog.minutes m) sender ack g).1) in *.
  assert (isLoggedIn (storage answered) = true) as Hl'
    by (unfold isLoggedIn, getNsec in *; by rewrite Hnsec).
  assert (record_for (SignDialog.domain dlg) (storage answered)
          = Some (chosen click_time dlg a (SignDialog.minutes m))) as Hrec
    by (unfold record_for; by rewrite Hperm).
  rewrite (onMessage_sign_event _ _ _ _ _ _ ev Hb), Hsite.
  rewrite sign_event_checked by done. cbv zeta.
  split.
  - intros Hin.
    rewrite (getSiteStatus_decision date_now _ (storage answered) _ Hrec);
      [| |by destruct a].
    + simpl. rewrite with_storage_same. destruct a; simpl; [|done].
      pose proof (auto_sign_shape tools date_now (SignDialog.domain dlg) ev
                    ch answered) as H.
      cbv zeta in H. by destruct H as (? & ? & ? & ? & _).
    + unfold expired. simpl. apply andb_false_iff. right. lia.
  - intros Hout.
    rewrite (getSiteStatus_expired date_now _ (storage answered) _ Hrec).
    + simpl. split; [done|]. unfold permissions_for. simpl.
      apply filter_other_same.
    + unfold expired. simpl. apply andb_true_iff.
      split; [apply negb_true_iff|]; lia.
Qed.

Lemma timed_choice_lasts_until_expiry_witness :
  dialogs
    (onMessage sample_tools (sample_now + 600000)
       (sign_request sample_site sample_event) NoTab 3%nat
       (SignDialog.approve sample_tools (sample_now + 4000)
          (sample_now + 4005) sample_dialog SignDialog.allow
          (SignDialog.minutes 15) NoTab 2%nat awaiting_approval).1).2
  = 0%nat.
Proof.
  refine (proj1 (proj2
            (proj1 (timed_choice_lasts_until_expiry sample_tools
                      (sample_now + 4000) (sample_now + 4005)
                      (sample_now + 600000) sample_dialog SignDialog.allow 15
                      NoTab NoTab 2%nat 3%nat awaiting_approval
                      (sign_request sample_site sample_event) sample_event
                      _ _ eq_refl eq_refl eq_refl eq_refl) _)));
    unfold sample_now; lia.
Defined.

(** X17: logging out does not cancel what is pending. After
    [clearAccount], the approval of a pending request calls the signer,
    which finds no key: the caller gets the error 'Not logged in', the
    pending request is gone and nothing is added to the history; and a
    new SignEvent request is answered with the login error, whatever the
    permission of its site. *)
Theorem approval_after_logout (tools : Nip07Signer.NostrTools)
    (date_now : Z) (g : state) (id : string) (p : PendingRequest)
    (error : option string) (req asking : request) (sender : tab)
    (ack ch : channel) (ev : value) :
  pendingRequests g !! id = Some p →
  body req = SIGN_DIALOG_RESPONSE (Some id) true error →
  body asking = SIGN_EVENT ev →
  let out := with_storage (Account.clearAccount (storage g)) g in
  let approved := onMessage tools date_now req sender ack out in
  approved.2 = [SignEventCall (event p);
                SendResponse (resolve p) (Error "Not logged in");
                SendResponse ack Acknowledge]
  ∧ pendingRequests approved.1 !! id = None
  ∧ postr_signing_history (storage approved.1)
    = postr_signing_history (storage g)
  ∧ postr_site_permissions (storage approved.1)
    = postr_site_permissions (storage g)
  ∧ onMessage tools date_now asking sender ch out
    = (out, [SendResponse ch (Error not_logged_in)]).
Proof.
  intros Hp Hb Ha. cbv zeta. split; [|split; [|split; [|split]]].
  1-4: unfold onMessage; rewrite Hb;
       destruct (resolve_site req sender) as [d o];
       unfold handle_dialog_response; simpl; rewrite Hp; simpl;
       try done; apply lookup_delete_eq.
  rewrite (onMessage_sign_event _ _ _ _ _ _ ev Ha).
  by apply sign_event_logged_out.
Qed.

Lemma approval_after_logout_witness :
  (onMessage sample_tools (sample_now + 5000)
     (dialog_response (pretty sample_now) true) NoTab 2%nat
     (with_storage (Account.clearAccount (storage awaiting_approval))
        awaiting_approval)).2
  = [SignEventCall sample_event;
     SendResponse 1%nat (Error "Not logged in");
     SendResponse 2%nat Acknowledge].
Proof.
  exact (proj1 (approval_after_logout sample_tools (sample_now + 5000)
                  awaiting_approval (pretty sample_now)
                  {| resolve := 1%nat; event := sample_event;
                     domain := sample_site;
                     origin := Some ("https://" +:+ sample_site) |}
                  None (dialog_response (pretty sample_now) true)
                  (sign_request sample_site sample_event) NoTab 2%nat 3%nat
                  sample_event eq_refl eq_refl eq_refl)).
Defined.

(** X18: the two refusals of the dialog reach the caller as they are.
    For a pending request, the reject button resolves the caller with
    'User rejected' and the close button of the malformed-event view
    with 'Malformed event'; either way the signer is not called, the
    permission list and the history are left alone, and the pending
    request, the stored payload and the first tracker entry of the
    request are removed. *)
Theorem refusal_reaches_caller (tools : Nip07Signer.NostrTools)
    (date_now : Z) (dlg : SignDialog.dialog) (g : state) (id : string)
    (p : PendingRequest) (sender : tab) (ack : channel) :
  SignDialog.requestId dlg = Some id →
  pendingRequests g !! id = Some p →
  let refused :=
    {| storage := remove_sign_request id (storage g);
       pendingRequests := delete id (pendingRequests g);
       dialogWindows := untrack (Some id) (dialogWindows g) |} in
  onMessage tools date_now (SignDialog.reject_click dlg) sender ack g
  = (refused, [SendResponse (resolve p) (Error "User rejected");
               SendResponse ack Acknowledge])
  ∧ onMessage tools date_now (SignDialog.close_click dlg) sender ack g
    = (refused, [SendResponse (resolve p) (Error "Malformed event");
                 SendResponse ack Acknowledge]).
Proof.
  intros Hid Hp. cbv zeta.
  unfold onMessage, SignDialog.reject_click, SignDialog.close_click,
    SignDialog.sendResponse. simpl.
  destruct (resolve_site _ sender) as [d o].
  unfold handle_dialog_response. rewrite Hid. simpl. by rewrite Hp.
Qed.

Lemma refusal_reaches_caller_witness :
  (onMessage sample_tools (sample_now + 5000)
     (SignDialog.reject_click sample_dialog) NoTab 2%nat
     awaiting_approval).2
  = [SendResponse 1%nat (Error "User rejected");
     SendResponse 2%nat Acknowledge].
Proof.
  exact (f_equal snd
           (proj1 (refusal_reaches_caller sample_tools (sample_now + 5000)
                     sample_dialog awaiting_approval (pretty sample_now)
                     {| resolve := 1%nat; event := sample_event;
                        domain := sample_site;
                        origin := Some ("https://" +:+ sample_site) |}
                     NoTab 2%nat eq_refl eq_refl))).
Defined.

End Flows.

(** ** Relays *)

Section RelayFacts.
Import Js Terms Relays.

Lemma has_url_elem (u : string) (relays : list Relay) :
  has_url u relays = true ↔ u ∈ urls relays.
Proof.
  unfold has_url, urls. rewrite existsb_exists, list_elem_of_In, in_map_iff.
  split; intros (r & H1 & H2); exists r.
  - apply String.eqb_eq in H2. done.
  - by rewrite H1, String.eqb_refl.
Qed.

Lemma has_url_app (u : string) (l1 l2 : list Relay) :
  has_url u (l1 ++ l2) = has_url u l1 || has_url u l2.
Proof. apply existsb_app. Qed.

Lemma add_missing_spec (defaults current : list Relay) (flag : bool) :
  ∃ added,
    (add_missing defaults current flag).1 = current ++ added
    ∧ added `sublist_of` defaults
    ∧ (∀ a, a ∈ added → has_url (url a) current = false)
    ∧ (∀ d, d ∈ defaults →
            has_url (url d) (add_missing defaults current flag).1 = true)
    ∧ ((add_missing defaults current flag).2 = true ↔
         flag = true ∨ added ≠ []).
Proof.
  revert current flag.
  induction defaults as [|d defaults IH]; intros current flag; simpl.
  - exists []. rewrite app_nil_r. repeat split; try done.
    + by intros ? ?%elem_of_nil.
    + by intros ? ?%elem_of_nil.
    + auto.
    + intros [?|?]; done.
  - destruct (has_url (url d) current) eqn:E.
    + destruct (IH current flag) as (added & Hm & Hsub & Hnew & Hall & Hf).
      exists added. split; [done|]. split; [by constructor|].
      split; [done|]. split; [|done].
      intros d' [->|Hin]%elem_of_cons; [|auto].
      rewrite Hm, has_url_app, E. done.
    + destruct (IH (current ++ [d]) true)
        as (added & Hm & Hsub & Hnew & Hall & Hf).
      exists (d :: added). rewrite Hm, <-app_assoc. simpl.
      split; [done|]. split; [by constructor|]. split; [|split].
      * intros a [->|Hin]%elem_of_cons; [done|].
        specialize (Hnew a Hin). rewrite has_url_app in Hnew.
        by apply orb_false_iff in Hnew as [? _].
      * intros d' [->|Hin]%elem_of_cons.
        -- rewrite has_url_app. simpl. by rewrite String.eqb_refl, orb_true_r.
        -- specialize (Hall d' Hin). by rewrite Hm, <-app_assoc in Hall.
      * rewrite Hf. split; [intros _; by right|auto].
Qed.

Lemma add_missing_complete (defaults current : list Relay) (flag : bool) :
  (∀ d, d ∈ defaults → has_url (url d) current = true) →
  add_missing defaults current flag = (current, flag).
Proof.
  induction defaults as [|d defaults IH]; intros Hall; simpl; [done|].
  rewrite Hall by apply list_elem_of_here.
  apply IH. intros d' Hin. apply Hall. by apply list_elem_of_further.
Qed.

Lemma has_url_self (defaults : list Relay) :
  ∀ d, d ∈ defaults → has_url (url d) defaults = true.
Proof.
  intros d Hin. apply has_url_elem. unfold urls.
  by apply (list_elem_of_fmap_2 url).
Qed.

(** What [migrateRelays] returns, in terms of the relays added. *)
Lemma migrateRelays_spec (c : context) :
  ∃ added,
    getRelays (migrateRelays c).2 = getRelays c ++ added
    ∧ DEFAULTS_RELAYS (migrateRelays c).2 = DEFAULTS_RELAYS c
    ∧ added `sublist_of` DEFAULTS_RELAYS c
    ∧ (∀ a, a ∈ added → has_url (url a) (getRelays c) = false)
    ∧ (∀ d, d ∈ DEFAULTS_RELAYS c →
            has_url (url d) (getRelays (migrateRelays c).2) = true)
    ∧ ((migrateRelays c).1 = true ↔ added ≠ []).
Proof.
  unfold migrateRelays.
  destruct (add_missing_spec (DEFAULTS_RELAYS c) (getRelays c) false)
    as (added & Hm & Hsub & Hnew & Hall & Hf).
  destruct (add_missing (DEFAULTS_RELAYS c) (getRelays c) false)
    as [migrated needsUpdate] eqn:E. simpl in *.
  exists added.
  assert (needsUpdate = true ↔ added ≠ []) as Hflag
    by (rewrite Hf; split; [intros [?|?]; done|auto]).
  destruct needsUpdate.
  - assert (postr_relays c ≠ None) as Hstored.
    { intros Hnone. unfold getRelays in E. rewrite Hnone in E.
      rewrite add_missing_complete in E by apply has_url_self. done. }
    unfold store_changed, getRelays at 1. simpl.
    destruct (postr_relays c) eqn:Es; [|done].
    subst migrated. by split_and!.
  - assert (added = []) as ->.
    { destruct added as [|r added]; [done|].
      assert (false = true) by (by apply Hflag). done. }
    rewrite app_nil_r in *. simpl. subst migrated.
    by split_and!.
Qed.

Lemma toggle_first_twice (u : string) (relays : list Relay) :
  toggle_first u (toggle_first u relays) = relays.
Proof.
  induction relays as [|r relays IH]; simpl; [done|].
  destruct (String.eqb (url r) u) eqn:E; simpl; rewrite E.
  - rewrite negb_involutive. by destruct r.
  - by rewrite IH.
Qed.

Lemma toggle_first_urls (u : string) (relays : list Relay) :
  urls (toggle_first u relays) = urls relays.
Proof.
  induction relays as [|r relays IH]; simpl; [done|].
  destruct (String.eqb (url r) u); simpl; [done|]. by rewrite IH.
Qed.

Lemma has_url_toggle (u v : string) (relays : list Relay) :
  has_url v (toggle_first u relays) = has_url v relays.
Proof.
  destruct (has_url v relays) eqn:E.
  - apply has_url_elem. rewrite toggle_first_urls. by apply has_url_elem.
  - destruct (has_url v (toggle_first u relays)) eqn:E'; [|done].
    apply has_url_elem in E'. rewrite toggle_first_urls in E'.
    apply has_url_elem in E'. congruence.
Qed.

Lemma has_url_filter_out (u : string) (relays : list Relay) :
  has_url u (List.filter (λ r, negb (String.eqb (url r) u)) relays) = false.
Proof.
  induction relays as [|r relays IH]; simpl; [done|].
  destruct (String.eqb (url r) u) eqn:E; simpl; [done|]. by rewrite E.
Qed.

Lemma filter_out_absent (u : string) (relays : list Relay) :
  has_url u relays = false →
  List.filter (λ r, negb (String.eqb (url r) u)) relays = relays.
Proof.
  induction relays as [|r relays IH]; simpl; [done|].
  destruct (String.eqb (url r) u); simpl; [done|].
  intros H. by rewrite IH.
Qed.

End RelayFacts.

Section RelayProperties.
Import Js Terms Relays.

(** X19: [migrateRelays] appends what is missing and nothing else. The
    relays afterwards are the relays before, unchanged and in order,
    followed by the default relays whose url was missing; afterwards the
    url of every default relay is present; the flag returned tells
    whether anything was appended; and a second migration appends
    nothing and returns false. *)
Theorem migration_adds_missing_defaults (c : context) :
  ∃ added,
    getRelays (migrateRelays c).2 = getRelays c ++ added
    ∧ added `sublist_of` DEFAULTS_RELAYS c
    ∧ (∀ a, a ∈ added → url a ∉ urls (getRelays c))
    ∧ (∀ d, d ∈ DEFAULTS_RELAYS c →
            url d ∈ urls (getRelays (migrateRelays c).2))
    ∧ ((migrateRelays c).1 = true ↔ added ≠ [])
    ∧ migrateRelays (migrateRelays c).2 = (false, (migrateRelays c).2).
Proof.
  destruct (migrateRelays_spec c)
    as (added & Hrel & Hdef & Hsub & Hnew & Hall & Hflag).
  exists added. split; [done|]. split; [done|]. split; [|split; [|split]].
  - intros a Hin Hu. apply has_url_elem in Hu. by rewrite Hnew in Hu.
  - intros d Hin. by apply has_url_elem, Hall.
  - done.
  - unfold migrateRelays at 1. rewrite Hdef.
    rewrite add_missing_complete by done. done.
Qed.

(** X20: [addRelay] adds a url once. Afterwards the url is among the
    relays; if it was there already nothing changes; otherwise one
    enabled, non-default relay with the url is appended and the other
    relays are as before. Urls that were pairwise different stay so, and
    adding the same url again changes nothing. *)
Theorem addRelay_adds_once (u : string) (c : context) :
  u ∈ urls (getRelays (addRelay u c))
  ∧ (u ∈ urls (getRelays c) → addRelay u c = c)
  ∧ (u ∉ urls (getRelays c) →
       getRelays (addRelay u c) = getRelays c ++ [added_relay u])
  ∧ (NoDup (urls (getRelays c)) → NoDup (urls (getRelays (addRelay u c))))
  ∧ addRelay u (addRelay u c) = addRelay u c.
Proof.
  assert (u ∈ urls (getRelays (addRelay u c))) as Hin.
  { unfold addRelay. destruct (has_url u (getRelays c)) eqn:E.
    - by apply has_url_elem.
    - unfold store_changed, getRelays at 1. simpl.
      apply has_url_elem. rewrite has_url_app. simpl.
      by rewrite String.eqb_refl, orb_true_r. }
  split; [done|]. split; [|split; [|split]].
  - intros H%has_url_elem. unfold addRelay. by rewrite H.
  - intros H. unfold addRelay.
    destruct (has_url u (getRelays c)) eqn:E;
      [by apply has_url_elem in E|done].
  - intros Hnd. unfold addRelay.
    destruct (has_url u (getRelays c)) eqn:E; [done|].
    unfold store_changed, getRelays at 1, urls. simpl.
    rewrite map_app. simpl. apply NoDup_app. split; [done|].
    split; [|apply NoDup_singleton].
    intros v Hv ->%list_elem_of_singleton.
    apply has_url_elem in Hv. congruence.
  - apply has_url_elem in Hin. unfold addRelay at 1. by rewrite Hin.
Qed.

(** X21: relay changes undo each other. Removing a url that was just
    added to relays that did not have it gives back the relays as they
    were; toggling a url twice gives back the relays as they were; after
    [removeRelay] no relay has the url; and toggling a url that no relay
    has changes nothing. *)
Theorem relay_changes_undo (u : string) (c : context) :
  (u ∉ urls (getRelays c) →
     getRelays (removeRelay u (addRelay u c)) = getRelays c)
  ∧ getRelays (toggleRelay u (toggleRelay u c)) = getRelays c
  ∧ (u ∉ urls (getRelays (removeRelay u c)))
  ∧ (u ∉ urls (getRelays c) → toggleRelay u c = c).
Proof.
  split; [|split; [|split]].
  - intros Hnot.
    assert (has_url u (getRelays c) = false) as E
      by (destruct (has_url u (getRelays c)) eqn:E; [|done];
          by apply has_url_elem in E).
    unfold removeRelay, addRelay. rewrite E.
    unfold setRelays, store_changed, getRelays at 1 2. simpl.
    rewrite List.filter_app, filter_out_absent by done. simpl.
    by rewrite String.eqb_refl, app_nil_r.
  - unfold toggleRelay.
    destruct (has_url u (getRelays c)) eqn:E; [|by rewrite E].
    unfold store_changed at 2. unfold getRelays at 2 4. simpl.
    rewrite has_url_toggle, E.
    unfold store_changed, getRelays at 1. simpl.
    apply toggle_first_twice.
  - intros Hin%has_url_elem. unfold removeRelay, setRelays in Hin.
    unfold getRelays at 1 in Hin. simpl in Hin.
    by rewrite has_url_filter_out in Hin.
  - intros Hnot. unfold toggleRelay.
    destruct (has_url u (getRelays c)) eqn:E; [|done].
    by apply has_url_elem in E.
Qed.

(** X22: the defaults of a page follow its first change. When nothing is
    stored, [getRelays] hands out the page's own defaults array, so
    [addRelay] pushes the new relay onto the defaults as well; if the
    relay is then removed, a migration run by the same page takes it for
    a missing default and puts it back. *)
Theorem removed_relay_comes_back (u : string) (c : context) :
  postr_relays c = None →
  u ∉ urls (DEFAULTS_RELAYS c) →
  DEFAULTS_RELAYS (addRelay u c) = DEFAULTS_RELAYS c ++ [added_relay u]
  ∧ getRelays (removeRelay u (addRelay u c)) = DEFAULTS_RELAYS c
  ∧ migrateRelays (removeRelay u (addRelay u c))
    = (true,
       {| postr_relays := Some (DEFAULTS_RELAYS c ++ [added_relay u]);
          DEFAULTS_RELAYS := DEFAULTS_RELAYS c ++ [added_relay u] |}).
Proof.
  intros Hnone Hnot.
  assert (has_url u (DEFAULTS_RELAYS c) = false) as E
    by (destruct (has_url u (DEFAULTS_RELAYS c)) eqn:E; [|done];
        by apply has_url_elem in E).
  assert (addRelay u c
          = {| postr_relays := Some (DEFAULTS_RELAYS c ++ [added_relay u]);
               DEFAULTS_RELAYS := DEFAULTS_RELAYS c ++ [added_relay u] |})
    as Hadd.
  { unfold addRelay, getRelays, store_changed. by rewrite Hnone, E. }
  assert (removeRelay u (addRelay u c)
          = {| postr_relays := Some (DEFAULTS_RELAYS c);
               DEFAULTS_RELAYS := DEFAULTS_RELAYS c ++ [added_relay u] |})
    as Hrem.
  { rewrite Hadd. unfold removeRelay, setRelays, getRelays. simpl.
    rewrite List.filter_app, filter_out_absent by done. simpl.
    by rewrite String.eqb_refl, app_nil_r. }
  split; [by rewrite Hadd|]. split; [by rewrite Hrem|].
  rewrite Hrem. unfold migrateRelays, getRelays. simpl.
  assert (∀ cur flag,
            (∀ d, d ∈ DEFAULTS_RELAYS c → has_url (url d) cur = true) →
            has_url u cur = false →
            add_missing (DEFAULTS_RELAYS c ++ [added_relay u]) cur flag
            = (cur ++ [added_relay u], true)) as Hgo.
  { generalize (DEFAULTS_RELAYS c). intros defaults.
    induction defaults as [|d defaults IH]; intros cur flag Hall Hu; simpl.
    - by rewrite Hu.
    - rewrite Hall by apply list_elem_of_here. apply IH; [|done].
      intros d' Hin. apply Hall. by apply list_elem_of_further. }
  rewrite Hgo; [done|apply has_url_self|done].
Qed.

Lemma removed_relay_comes_back_witness :
  (migrateRelays
     (removeRelay "wss://relay.example"
        (addRelay "wss://relay.example" (fresh None)))).1 = true.
Proof.
  refine (f_equal fst
            (proj2 (proj2 (removed_relay_comes_back "wss://relay.example"
                             (fresh None) eq_refl _)))).
  apply (bool_decide_unpack _). vm_compute. exact I.
Defined.

End RelayProperties.

(** ** The other handlers, the install hook and the popup *)

Section HandlerFacts.
Import Js Storage Spec Terms Background Handlers.

Lemma assoc_set_field (k k' : string) (v : value)
    (fields : list (string * value)) :
  assoc k (set_field k' v fields)
  = if String.eqb k k' then v else assoc k fields.
Proof.
  induction fields as [|[k'' v''] fields IH]; simpl.
  - done.
  - destruct (String.eqb_spec k' k'') as [->|Hne]; simpl.
    + by destruct (String.eqb k k'').
    + rewrite IH. destruct (String.eqb_spec k k'') as [->|Hne'];
        [|done].
      destruct (String.eqb_spec k'' k'); [congruence|done].
Qed.

Lemma set_field_keys (k : string) (v : value)
    (fields : list (string * value)) :
  NoDup fields.*1 → NoDup (set_field k v fields).*1
  ∧ ∀ k', k' ∈ (set_field k v fields).*1 ↔ k' = k ∨ k' ∈ fields.*1.
Proof.
  induction fields as [|[k'' v''] fields IH]; simpl.
  - intros _. split; [apply NoDup_singleton|].
    intros k'. rewrite list_elem_of_singleton, elem_of_nil. tauto.
  - rewrite NoDup_cons. intros [Hnot Hnd].
    destruct (IH Hnd) as [IHnd IHin].
    destruct (String.eqb_spec k k'') as [->|Hne]; simpl.
    + split; [by apply NoDup_cons|].
      intros k'. rewrite elem_of_cons. tauto.
    + split.
      * apply NoDup_cons. split; [|done].
        rewrite IHin. intros [?|?]; done.
      * intros k'. rewrite !elem_of_cons, IHin. tauto.
Qed.

Lemma relayMap_go (relays : list Relays.Relay)
    (fields : list (string * value)) (u : string) :
  assoc u (fold_left
             (λ fields r, set_field (Relays.url r) relay_capabilities fields)
             relays fields)
  = if Relays.has_url u relays then relay_capabilities else assoc u fields.
Proof.
  revert fields. induction relays as [|r relays IH]; intros fields; simpl.
  - done.
  - rewrite IH, assoc_set_field.
    change (Relays.has_url u (r :: relays))
      with (String.eqb (Relays.url r) u || Relays.has_url u relays).
    rewrite (String.eqb_sym (Relays.url r) u).
    by destruct (Relays.has_url u relays), (String.eqb u (Relays.url r)).
Qed.

Lemma relayMap_keys (relays : list Relays.Relay)
    (fields : list (string * value)) :
  NoDup fields.*1 →
  NoDup (fold_left
           (λ fields r, set_field (Relays.url r) relay_capabilities fields)
           relays fields).*1.
Proof.
  revert fields. induction relays as [|r relays IH]; intros fields Hnd;
    simpl; [done|].
  apply IH. by apply set_field_keys.
Qed.

Lemma privateKey_nsec (tools : Nip07Signer.NostrTools) (s s' : local) :
  postr_nsec s = postr_nsec s' →
  Nip07Signer.privateKey tools s = Nip07Signer.privateKey tools s'.
Proof.
  intros H. unfold Nip07Signer.privateKey, getNsec. by rewrite H.
Qed.

Lemma encrypt_each_spec (crypto : Encryption.CryptoTools)
    (key plaintext : value) (recipients messages : list value) :
  Encryption.encrypt_each crypto key plaintext recipients = Ok messages →
  Forall2 (wrapped crypto key plaintext) recipients messages.
Proof.
  revert messages.
  induction recipients as [|r recipients IH]; intros messages; simpl.
  - intros [= <-]. constructor.
  - unfold mbind, result_bind.
    destruct (Encryption.nip44_getConversationKey crypto key r)
      as [ck|] eqn:Eck; [|done].
    destruct (Encryption.nip44_encrypt crypto plaintext ck)
      as [ct|] eqn:Ect; [|done].
    destruct (Encryption.encrypt_each crypto key plaintext recipients)
      as [rest|] eqn:Erest; [|done].
    intros [= <-]. constructor; [|by apply IH].
    by exists ck, ct.
Qed.

Lemma encrypt_each_fails (crypto : Encryption.CryptoTools)
    (key plaintext r : value) (recipients : list value) :
  r ∈ recipients →
  (∀ ck, Encryption.nip44_getConversationKey crypto key r ≠ Ok ck) →
  ∃ message,
    Encryption.encrypt_each crypto key plaintext recipients = Throw message.
Proof.
  intros Hin Hfail.
  induction recipients as [|r' recipients IH]; simpl;
    [by apply elem_of_nil in Hin|].
  unfold mbind, result_bind.
  destruct (Encryption.nip44_getConversationKey crypto key r')
    as [ck|m] eqn:Eck; [|by eexists].
  destruct (Encryption.nip44_encrypt crypto plaintext ck)
    as [ct|m]; [|by eexists].
  apply elem_of_cons in Hin as [->|Hin]; [by destruct (Hfail ck)|].
  destruct (IH Hin) as [m ->]. by eexists.
Qed.

End HandlerFacts.

Section HandlerProperties.
Import Js Storage Spec Terms Background Handlers.

(** X23: the reply to GET_RELAYS lists the enabled relays and only them.
    It is one result: an object in which every url of an enabled relay
    maps to read and write both true, no other key is defined (a
    disabled relay is not listed), and no key occurs twice. *)
Theorem relay_map_lists_enabled (c : Relays.context) (ch : channel) :
  ∃ fields,
    handle_get_relays c ch = [SendResponse ch (Result (Obj fields))]
    ∧ NoDup fields.*1
    ∧ ∀ u,
        let listed :=
          ∃ r, r ∈ Relays.getRelays c ∧ Relays.url r = u
               ∧ Relays.enabled r = true in
        (listed → field (Obj fields) u = relay_capabilities)
        ∧ (¬ listed → field (Obj fields) u = Undefined).
Proof.
  exists (relayMap (Relays.getEnabledRelays c)).
  split; [done|]. split; [apply relayMap_keys; constructor|].
  intros u. simpl. unfold relayMap. rewrite relayMap_go. simpl.
  assert (Relays.has_url u (Relays.getEnabledRelays c) = true ↔
          ∃ r, r ∈ Relays.getRelays c ∧ Relays.url r = u
               ∧ Relays.enabled r = true) as Hiff.
  { unfold Relays.has_url, Relays.getEnabledRelays.
    rewrite existsb_exists. split.
    - intros (r & [Hin He]%List.filter_In & Hu%String.eqb_eq).
      exists r. by rewrite list_elem_of_In.
    - intros (r & Hin & Hu & He). exists r.
      rewrite List.filter_In, <-list_elem_of_In, String.eqb_eq. done. }
  destruct (Relays.has_url u (Relays.getEnabledRelays c)).
  - split; [done|]. intros H. destruct H. by apply Hiff.
  - split; [|done]. intros H. by apply Hiff in H.
Qed.

(** X24: after the install hook the relays contain the url of every
    default relay, the relays read before are still there in front
    unless they were empty, and the permission store holds only records
    with a truthy type that are not expired, all of them records it held
    before. On a storage without relays the hook stores none: the relays
    read are the defaults themselves, which are neither empty nor
    missing anything, so the key stays unset. *)
Theorem install_hook_completes (date_now : Z) (c : Relays.context)
    (s : local) :
  let installed := onInstalled date_now c s in
  (∀ d, d ∈ Relays.DEFAULTS_RELAYS c →
        Relays.url d ∈ urls (Relays.getRelays installed.1))
  ∧ (Relays.getRelays c ≠ [] →
       ∃ added, Relays.getRelays installed.1 = Relays.getRelays c ++ added)
  ∧ (∀ p, p ∈ postr_site_permissions installed.2 →
          valid date_now p = true)
  ∧ postr_site_permissions installed.2 `sublist_of` postr_site_permissions s
  ∧ (Relays.postr_relays c = None → Relays.DEFAULTS_RELAYS c ≠ [] →
       installed.1 = c).
Proof.
  cbv zeta. unfold onInstalled. cbn [fst snd].
  set (c1 := if (length (Relays.getRelays c) =? 0)%nat
             then Relays.setRelays (Relays.DEFAULTS_RELAYS c) c else c).
  assert (Relays.DEFAULTS_RELAYS c1 = Relays.DEFAULTS_RELAYS c) as Hdef
    by (subst c1; by destruct (_ =? _)%nat).
  destruct (migrateRelays_spec c1)
    as (added & Hrel & _ & _ & _ & Hall & _).
  split; [|split; [|split; [|split]]].
  - intros d Hin. apply has_url_elem, Hall. by rewrite Hdef.
  - intros Hne. exists added. rewrite Hrel. subst c1.
    destruct (Relays.getRelays c) eqn:E; [done|]. simpl. by rewrite E.
  - intros p. rewrite cleanup_permissions, list_elem_of_In, List.filter_In.
    by intros [_ ?].
  - rewrite cleanup_permissions. apply filter_sublist.
  - intros Hnone Hne. subst c1. unfold Relays.getRelays. rewrite Hnone.
    destruct (Relays.DEFAULTS_RELAYS c) as [|r rest] eqn:E; [done|].
    cbn [length Nat.eqb]. unfold Relays.migrateRelays, Relays.getRelays.
    rewrite Hnone, E, add_missing_complete; [done|].
    apply has_url_self.
Qed.

(** X25: [nip17Encrypt] wraps the plaintext once per recipient, in
    order. When it succeeds the result is an array with one message per
    recipient, the i-th naming the i-th recipient and carrying the
    plaintext encrypted under the conversation key of the stored key
    with that recipient; for no recipients it is the empty array. When
    the conversation key of one recipient cannot be made, the whole call
    throws and no message is returned. *)
Theorem nip17Encrypt_one_per_recipient (tools : Nip07Signer.NostrTools)
    (crypto : Encryption.CryptoTools) (s : local) (key pubkey : value)
    (recipients : list value) (plaintext : value) :
  Nip07Signer.privateKey tools s = Ok key →
  Nip07Signer.getPublicKey tools key = Ok pubkey →
  (∀ out,
     Encryption.nip17Encrypt tools crypto s recipients plaintext = Ok out →
     ∃ messages,
       out = Arr messages
       ∧ Forall2 (wrapped crypto key plaintext) recipients messages)
  ∧ (recipients = [] →
       Encryption.nip17Encrypt tools crypto s recipients plaintext
       = Ok (Arr []))
  ∧ (∀ r, r ∈ recipients →
          (∀ ck, Encryption.nip44_getConversationKey crypto key r ≠ Ok ck) →
          ∃ message,
            Encryption.nip17Encrypt tools crypto s recipients plaintext
            = Throw message).
Proof.
  intros Hkey Hpub.
  unfold Encryption.nip17Encrypt, mbind, result_bind. rewrite Hkey, Hpub.
  split; [|split].
  - intros out.
    destruct (Encryption.encrypt_each crypto key plaintext recipients)
      as [messages|] eqn:E; [|done].
    intros [= <-]. exists messages. split; [done|].
    by apply encrypt_each_spec.
  - by intros ->.
  - intros r Hin Hfail.
    destruct (encrypt_each_fails crypto key plaintext r recipients Hin Hfail)
      as [m ->]. by eexists.
Qed.

Lemma nip17Encrypt_one_per_recipient_witness :
  ∃ messages,
    Arr [Obj [("pubkey", Str "alice"); ("ciphertext", Str "hi")];
         Obj [("pubkey", Str "bob"); ("ciphertext", Str "hi")]]
    = Arr messages
    ∧ Forall2 (wrapped sample_crypto (Str "nsec1") (Str "hi"))
        [Str "alice"; Str "bob"] messages.
Proof.
  exact (proj1 (nip17Encrypt_one_per_recipient sample_tools sample_crypto
                  logged_in (Str "nsec1") (Str "pubkey")
                  [Str "alice"; Str "bob"] (Str "hi") eq_refl eq_refl)
           _ eq_refl).
Defined.

(** X26: encryption and decryption are not gated. The handler of the four
    kinds changes no state and sends exactly one reply, and the reply
    depends on the stored key and the request alone: two states with the
    same nsec get the same reply, whatever their permission records,
    pending requests and dialog windows are. *)
Theorem encryption_is_not_gated (tools : Nip07Signer.NostrTools)
    (crypto : Encryption.CryptoTools) (m : crypto_message) (ch : channel)
    (g g' : state) :
  postr_nsec (storage g) = postr_nsec (storage g') →
  (handle_crypto tools crypto m ch g).1 = g
  ∧ (∃ r, (handle_crypto tools crypto m ch g).2 = [SendResponse ch r])
  ∧ (handle_crypto tools crypto m ch g).2
    = (handle_crypto tools crypto m ch g').2.
Proof.
  intros Hn.
  pose proof (privateKey_nsec tools _ _ Hn) as Hk.
  unfold handle_crypto.
  split; [by repeat case_match|]. split; [repeat case_match; by eexists|].
  destruct m; simpl;
    unfold Encryption.nip04Encrypt, Encryption.nip04Decrypt,
      Encryption.nip17Encrypt, Encryption.nip17Decrypt;
    rewrite Hk;
    match goal with
    | |- (match ?x with _ => _ end).2 = _ => by destruct x
    end.
Qed.

Lemma encryption_is_not_gated_witness :
  (handle_crypto sample_tools sample_crypto
     (NIP04_DECRYPT (Str "pubkey") (Str "secret")) 1%nat
     (loaded (store_of (Some "nsec1") [record_of (Str "deny") None]))).2
  = (handle_crypto sample_tools sample_crypto
       (NIP04_DECRYPT (Str "pubkey") (Str "secret")) 1%nat
       (loaded (store_of (Some "nsec1") []))).2.
Proof.
  exact (proj2 (proj2 (encryption_is_not_gated sample_tools sample_crypto
                         (NIP04_DECRYPT (Str "pubkey") (Str "secret")) 1%nat
                         (loaded (store_of (Some "nsec1")
                                    [record_of (Str "deny") None]))
                         (loaded (store_of (Some "nsec1") [])) eq_refl))).
Defined.

(** X27: the popup tells what the gateway would decide. For a page with a
    hostname that is not an internal page, [loadSiteStatus] leaves the
    storage exactly as a read of the gateway at the same time would, and
    it shows the class allowed, denied or no-access (with the revoke
    button only for the first two) according to the status that read
    returns; for any other tab it shows nothing and touches nothing. *)
Theorem popup_shows_the_gateway_decision (date_now : Z)
    (tab : Popup.active_tab) (s : local) :
  match tab with
  | Popup.Page tab_url d =>
      if String.eqb d EmptyString
         || String.prefix "chrome://" tab_url
         || String.prefix "chrome-extension://" tab_url
      then Popup.loadSiteStatus date_now tab s = (Popup.Hidden, s)
      else
        (Popup.loadSiteStatus date_now tab s).2
        = (getSiteStatus date_now d s).2
        ∧ match (getSiteStatus date_now d s).1 with
          | allowed =>
              ∃ text, (Popup.loadSiteStatus date_now tab s).1
                      = Popup.Site d text "site-permission allowed" true
          | denied =>
              ∃ text, (Popup.loadSiteStatus date_now tab s).1
                      = Popup.Site d text "site-permission denied" true
          | unknown =>
              (Popup.loadSiteStatus date_now tab s).1
              = Popup.Site d "No access" "site-permission no-access" false
          end
  | _ => Popup.loadSiteStatus date_now tab s = (Popup.Hidden, s)
  end.
Proof.
  destruct tab as [| |tab_url d]; [done..|].
  unfold Popup.loadSiteStatus, getSiteStatus.
  destruct (_ || _); [done|].
  destruct (List.find _ _) as [p|]; [|done].
  destruct (expired date_now p); [done|].
  destruct (truthy (type p)); [|done]. simpl.
  destruct (is_str (type p) "deny"); simpl; split; try done; by eexists.
Qed.

(** X28: the popup and the gateway disagree in the last millisecond. A
    record whose expiry is the current time itself is not expired yet:
    the gateway still honours it and the popup shows its class and the
    revoke button, but the time left, zero, is labelled 'expired'. *)
Theorem popup_says_expired_at_the_deadline (date_now : Z) (tab_url d : string)
    (s : local) (p : Permission) :
  String.eqb d EmptyString
  || String.prefix "chrome://" tab_url
  || String.prefix "chrome-extension://" tab_url = false →
  record_for d s = Some p →
  expiresAt p = Some date_now →
  date_now ≠ 0 →
  truthy (type p) = true →
  let deny := is_str (type p) "deny" in
  getSiteStatus date_now d s = (if deny then denied else allowed, s)
  ∧ Popup.loadSiteStatus date_now (Popup.Page tab_url d) s
    = (Popup.Site d
         (if deny then "Denied -- expired" else "Allowed -- expired")
         (if deny then "site-permission denied"
          else "site-permission allowed") true, s).
Proof.
  intros Hpage Hrec He Hz Ht. cbv zeta.
  assert (expired date_now p = false) as Hexp
    by (unfold expired; rewrite He; apply andb_false_iff; right; lia).
  split; [by apply getSiteStatus_decision|].
  unfold Popup.loadSiteStatus. rewrite Hpage, find_record_for, Hrec.
  rewrite Hexp, Ht, He. simpl.
  apply Z.eqb_neq in Hz. rewrite Hz, Z.sub_diag.
  by destruct (is_str (type p) "deny").
Qed.

Lemma popup_says_expired_at_the_deadline_witness :
  Popup.loadSiteStatus sample_now
    (Popup.Page "https://site.example/feed" sample_site)
    (store_of None [record_of (Str "allow") (Some sample_now)])
  = (Popup.Site sample_site "Allowed -- expired" "site-permission allowed"
       true,
     store_of None [record_of (Str "allow") (Some sample_now)]).
Proof.
  exact (proj2 (popup_says_expired_at_the_deadline sample_now
                  "https://site.example/feed" sample_site
                  (store_of None [record_of (Str "allow") (Some sample_now)])
                  (record_of (Str "allow") (Some sample_now))
                  eq_refl eq_refl eq_refl ltac:(discriminate) eq_refl)).
Defined.

End HandlerProperties.
